(** * Kobo DRM removal, proof of concept ([scripts/kobo_drm_poc.py])

    A shallow embedding of the script and the properties its specification
    states about it.

    Conventions of the embedding.
    - A Python [bytes] value is a [list byte]; [data[i]] is the unsigned
      value [Byte.to_N] of the byte.
    - A Python [str] is a [string]: each [ascii] stands for one code point in
      the range 0..255.  The script only ever compares strings, concatenates
      them, encodes them to ASCII and replaces or splits on ASCII characters,
      so code points above 255 behave like the ones in 128..255.
    - A function that can raise returns a [result]; the exception classes
      are the ones the script can meet, all of them subclasses of
      [Exception].
    - A [dict] is an association list in insertion order with distinct keys,
      built with [dict_set].
    - The library functions the script calls ([hashlib.sha256],
      [base64.b64decode], [binascii.a2b_hex], [Crypto.Cipher.AES] in ECB
      mode, [zipfile]) are modelled after their documented behaviour and
      checked on published test vectors below.  The archives are
      taken as readable and the descriptor as the text read from it: faults
      of the file system and of the decoding of files are not modelled. *)

From Stdlib Require Import List Strings.String Strings.Ascii Strings.Byte.
From Stdlib Require Import NArith ZArith Bool Arith Lia.
Import ListNotations.

Set Implicit Arguments.

(* ------------------------------------------------------------------ *)
(** * Python values and exceptions *)

Definition bytes := list byte.

Inductive exn : Set :=
| FileNotFoundError
| ValueError
| BinasciiError        (* binascii.Error, a ValueError *)
| UnicodeEncodeError   (* a ValueError *)
| IndexError
| KeyError
| StopIteration.

Inductive result (A : Type) : Type :=
| Ok (a : A)
| Raise (e : exn).

Arguments Ok {A} a.
Arguments Raise {A} e.

Definition bind {A B : Type} (r : result A) (k : A -> result B) : result B :=
  match r with
  | Ok a => k a
  | Raise e => Raise e
  end.

Notation "x <- c ;; k" := (bind c (fun x => k))
  (at level 61, c at next level, right associativity).

Definition is_ok {A : Type} (r : result A) : bool :=
  match r with Ok _ => true | Raise _ => false end.

(** ** Indexing and slicing, with Python's treatment of negative indices *)

Definition getitem {A : Type} (l : list A) (i : Z) : result A :=
  let n := Z.of_nat (List.length l) in
  let j := if (i <? 0)%Z then (i + n)%Z else i in
  if ((j <? 0) || (n <=? j))%Z then Raise IndexError
  else match nth_error l (Z.to_nat j) with
       | Some x => Ok x
       | None => Raise IndexError
       end.

(** A slice bound [i] of a sequence of length [n]: negative bounds count from
    the end, and every bound is clipped to [0..n]. *)
Definition clip (n : nat) (i : Z) : nat :=
  let m := Z.of_nat n in
  Z.to_nat (if (i <? 0)%Z then Z.max 0 (i + m) else Z.min i m).

(** [l[:stop]] *)
Definition slice_to {A : Type} (l : list A) (stop : Z) : list A :=
  firstn (clip (List.length l) stop) l.

(** [l[start:]] *)
Definition slice_from {A : Type} (l : list A) (start : Z) : list A :=
  skipn (clip (List.length l) start) l.

(** [l[start:stop]] *)
Definition slice {A : Type} (l : list A) (start stop : Z) : list A :=
  let a := clip (List.length l) start in
  let b := clip (List.length l) stop in
  firstn (b - a) (skipn a l).

(** ** [bytes] *)

Definition byte_of_N (n : N) : byte :=
  match Byte.of_N (n mod 256) with
  | Some b => b
  | None => x00
  end.

Fixpoint startswith (needle hay : bytes) : bool :=
  match needle, hay with
  | [], _ => true
  | _ :: _, [] => false
  | a :: needle', b :: hay' => Byte.eqb a b && startswith needle' hay'
  end.

(** [needle in hay] for two [bytes] values: [needle] occurs in [hay] as a
    contiguous run. *)
Fixpoint bytes_in (needle hay : bytes) : bool :=
  startswith needle hay
  || match hay with
     | [] => false
     | _ :: hay' => bytes_in needle hay'
     end.

(** ** [str] *)

Definition chars (s : string) : list ascii := list_ascii_of_string s.
Definition str (l : list ascii) : string := string_of_list_ascii l.

Definition ord (c : ascii) : N := N_of_ascii c.

(** [str.isspace] on the code points 0..255. *)
Definition isspace (c : ascii) : bool :=
  let n := ord c in
  ((9 <=? n) && (n <=? 13) || (28 <=? n) && (n <=? 32)
   || (n =? 0x85) || (n =? 0xa0))%N.

Fixpoint lstrip_chars (l : list ascii) : list ascii :=
  match l with
  | [] => []
  | c :: l' => if isspace c then lstrip_chars l' else l
  end.

(** [s.strip()] *)
Definition str_strip (s : string) : string :=
  str (rev (lstrip_chars (rev (lstrip_chars (chars s))))).

(** [s.split(sep)] for a one-character separator: never the empty list. *)
Fixpoint str_split (sep : ascii) (s : string) : list string :=
  match s with
  | EmptyString => [EmptyString]
  | String c s' =>
      if Ascii.eqb c sep then EmptyString :: str_split sep s'
      else match str_split sep s' with
           | field :: fields => String c field :: fields
           | [] => [String c EmptyString]
           end
  end.

(** [s.replace(old, new)] for one-character [old] and [new]. *)
Fixpoint str_replace (old new : ascii) (s : string) : string :=
  match s with
  | EmptyString => EmptyString
  | String c s' =>
      String (if Ascii.eqb c old then new else c) (str_replace old new s')
  end.

(** [s.encode("ascii")] *)
Fixpoint encode_ascii (s : string) : result bytes :=
  match s with
  | EmptyString => Ok []
  | String c s' =>
      if (ord c <? 128)%N
      then bs <- encode_ascii s' ;; Ok (byte_of_ascii c :: bs)
      else Raise UnicodeEncodeError
  end.

(** ** Hexadecimal: [bytes.hex()], [hexdigest()] and [binascii.a2b_hex] *)

Definition hex_digit (n : N) : ascii :=
  ascii_of_N (if (n <? 10)%N then 48 + n else 87 + n).

Fixpoint hexlify (b : bytes) : string :=
  match b with
  | [] => EmptyString
  | x :: b' =>
      let n := Byte.to_N x in
      String (hex_digit (n / 16)) (String (hex_digit (n mod 16)) (hexlify b'))
  end.

Definition hex_value (c : ascii) : option N :=
  let n := ord c in
  if ((48 <=? n) && (n <=? 57))%N then Some (n - 48)%N
  else if ((97 <=? n) && (n <=? 102))%N then Some (n - 87)%N
  else if ((65 <=? n) && (n <=? 70))%N then Some (n - 55)%N
  else None.

(** [binascii.a2b_hex] applied to a [str]: the string is first encoded to
    ASCII, an odd length is refused, then every pair of digits is decoded. *)
Fixpoint unhex_pairs (s : string) : result bytes :=
  match s with
  | EmptyString => Ok []
  | String _ EmptyString => Raise BinasciiError
  | String hi (String lo s') =>
      match hex_value hi, hex_value lo with
      | Some h, Some l => bs <- unhex_pairs s' ;; Ok (byte_of_N (16 * h + l) :: bs)
      | _, _ => Raise BinasciiError
      end
  end.

Definition a2b_hex (s : string) : result bytes :=
  match encode_ascii s with
  | Raise _ => Raise ValueError
  | Ok _ =>
      if Nat.even (String.length s) then unhex_pairs s else Raise BinasciiError
  end.

(** ** [dict] with [str] keys, in insertion order *)

Definition dict (V : Type) := list (string * V).

Fixpoint dict_get {V : Type} (d : dict V) (k : string) : option V :=
  match d with
  | [] => None
  | (k', v) :: d' => if String.eqb k k' then Some v else dict_get d' k
  end.

(** [k in d] *)
Definition dict_in {V : Type} (k : string) (d : dict V) : bool :=
  match dict_get d k with Some _ => true | None => false end.

(** [d[k] = v]: an existing key keeps its place, a new one goes last. *)
Fixpoint dict_set {V : Type} (d : dict V) (k : string) (v : V) : dict V :=
  match d with
  | [] => [(k, v)]
  | (k', v') :: d' =>
      if String.eqb k k' then (k', v) :: d' else (k', v') :: dict_set d' k v
  end.

Definition dict_keys {V : Type} (d : dict V) : list string := map fst d.

(** [next(iter(l))] *)
Definition next_iter {A : Type} (l : list A) : result A :=
  match l with
  | [] => Raise StopIteration
  | x :: _ => Ok x
  end.

(* ------------------------------------------------------------------ *)
(** * [base64.b64decode]

    [base64.b64decode(s)] with its default [validate=False]: a [str] is
    encoded to ASCII ([ValueError] otherwise), then [binascii.a2b_base64]
    runs in its non-strict mode.  Characters outside the alphabet are
    skipped, a run of [=] that completes a quad ends the decoding, and a
    quad left incomplete at the end of the input raises [binascii.Error]. *)

Module Base64.

Definition table_a2b (c : N) : option N :=
  (if (65 <=? c) && (c <=? 90) then Some (c - 65)          (* A-Z *)
   else if (97 <=? c) && (c <=? 122) then Some (c - 71)    (* a-z *)
   else if (48 <=? c) && (c <=? 57) then Some (c + 4)      (* 0-9 *)
   else if c =? 43 then Some 62                            (* + *)
   else if c =? 47 then Some 63                            (* / *)
   else None)%N.

Definition PAD : N := 61.                                  (* = *)

(** The loop of [a2b_base64].  [quad_pos] is the position in the current
    group of four characters, [leftchar] the bits carried over from the
    previous character, [pads] the number of [=] seen since the last data
    character, [out] the bytes produced so far, last one first. *)
Fixpoint a2b_loop (data : list N) (quad_pos : nat) (leftchar : N)
         (pads : nat) (out : list N) : result (list N) :=
  match data with
  | [] => if quad_pos =? 0 then Ok (rev out) else Raise BinasciiError
  | this_ch :: data' =>
      if (this_ch =? PAD)%N then
        if 2 <=? quad_pos then
          if 4 <=? quad_pos + S pads then Ok (rev out)
          else a2b_loop data' quad_pos leftchar (S pads) out
        else a2b_loop data' quad_pos leftchar pads out
      else
        match table_a2b this_ch with
        | None => a2b_loop data' quad_pos leftchar pads out
        | Some v =>
            match quad_pos with
            | 0 => a2b_loop data' 1 v 0 out
            | 1 => a2b_loop data' 2 (N.land v 0x0f) 0
                     (N.lor (N.shiftl leftchar 2) (N.shiftr v 4) :: out)
            | 2 => a2b_loop data' 3 (N.land v 0x03) 0
                     (N.lor (N.shiftl leftchar 4) (N.shiftr v 2) :: out)
            | _ => a2b_loop data' 0 0%N 0
                     (N.lor (N.shiftl leftchar 6) v :: out)
            end
        end
  end.

Definition a2b_base64 (data : bytes) : result bytes :=
  out <- a2b_loop (map Byte.to_N data) 0 0%N 0 [] ;;
  Ok (map byte_of_N out).

Definition b64decode (s : string) : result bytes :=
  match encode_ascii s with
  | Raise _ => Raise ValueError
  | Ok data => a2b_base64 data
  end.

End Base64.

(* ------------------------------------------------------------------ *)
(** * [hashlib.sha256] (FIPS 180-4)

    Words are 32-bit values held in [N]; every addition is reduced modulo
    2^32 and every rotation is written with two shifts. *)

Module SHA256.

Definition mask32 : N := 0xffffffff.

Definition add32 (x y : N) : N := ((x + y) mod 2 ^ 32)%N.

Definition rotr (n x : N) : N :=
  N.lor (N.shiftr x n) (N.land (N.shiftl x (32 - n)) mask32).

Definition Ch (x y z : N) : N :=
  N.lxor (N.land x y) (N.land (N.lxor x mask32) z).
Definition Maj (x y z : N) : N :=
  N.lxor (N.lxor (N.land x y) (N.land x z)) (N.land y z).
Definition Sigma0 (x : N) : N :=
  N.lxor (N.lxor (rotr 2 x) (rotr 13 x)) (rotr 22 x).
Definition Sigma1 (x : N) : N :=
  N.lxor (N.lxor (rotr 6 x) (rotr 11 x)) (rotr 25 x).
Definition sigma0 (x : N) : N :=
  N.lxor (N.lxor (rotr 7 x) (rotr 18 x)) (N.shiftr x 3).
Definition sigma1 (x : N) : N :=
  N.lxor (N.lxor (rotr 17 x) (rotr 19 x)) (N.shiftr x 10).

(** The integer part of a cube root, found bit by bit from bit [n - 1]
    down. *)
Fixpoint cube_root_bits (n : nat) (x r : N) : N :=
  match n with
  | O => r
  | S n' =>
      let r' := N.lor r (N.shiftl 1 (N.of_nat n')) in
      cube_root_bits n' x (if (r' * r' * r' <=? x)%N then r' else r)
  end.

Definition first_primes : list N :=
  [2; 3; 5; 7; 11; 13; 17; 19; 23; 29; 31; 37; 41; 43; 47; 53;
   59; 61; 67; 71; 73; 79; 83; 89; 97; 101; 103; 107; 109; 113; 127; 131;
   137; 139; 149; 151; 157; 163; 167; 173; 179; 181; 191; 193; 197; 199;
   211; 223; 227; 229; 233; 239; 241; 251; 257; 263; 269; 271; 277; 281;
   283; 293; 307; 311]%N.

(** The round constants: the first 32 bits of the fractional parts of the
    cube roots of the first 64 primes (FIPS 180-4, 4.2.2). *)
Definition K : list N :=
  Eval vm_compute in
    map (fun p => cube_root_bits 36 (p * 2 ^ 96) 0 mod 2 ^ 32)%N first_primes.

(** The eight working variables, and the hash value between blocks. *)
Definition state : Type := (N * N * N * N * N * N * N * N)%type.

(** The initial hash value: the first 32 bits of the fractional parts of
    the square roots of the first 8 primes (FIPS 180-4, 5.3.3). *)
Definition frac_sqrt (p : N) : N := (N.sqrt (p * 2 ^ 64) mod 2 ^ 32)%N.

Definition H0 : state :=
  Eval vm_compute in
    (frac_sqrt 2, frac_sqrt 3, frac_sqrt 5, frac_sqrt 7,
     frac_sqrt 11, frac_sqrt 13, frac_sqrt 17, frac_sqrt 19).

(** Big-endian bytes of a value, [n] of them. *)
Fixpoint be_bytes (n : nat) (x : N) : list N :=
  match n with
  | O => []
  | S n' => ((x / 256 ^ N.of_nat n') mod 256)%N :: be_bytes n' x
  end.

(** The message followed by the bit 1, zeros up to 56 modulo 64 bytes, and
    the length of the message in bits on 8 bytes. *)
Definition pad (msg : list N) : list N :=
  let len := List.length msg in
  let zeros := (64 - (len + 9) mod 64) mod 64 in
  msg ++ [0x80%N] ++ repeat 0%N zeros ++ be_bytes 8 (8 * N.of_nat len).

Fixpoint words (l : list N) : list N :=
  match l with
  | a :: b :: c :: d :: l' =>
      (((a * 256 + b) * 256 + c) * 256 + d)%N :: words l'
  | _ => []
  end.

(** The message schedule: [rw] holds the words computed so far, most
    recent first, so that W(t-2), W(t-7), W(t-15) and W(t-16) are at
    positions 1, 6, 14 and 15. *)
Fixpoint schedule (n : nat) (rw : list N) : list N :=
  match n with
  | O => rev rw
  | S n' =>
      let w := add32 (add32 (sigma1 (nth 1 rw 0%N)) (nth 6 rw 0%N))
                     (add32 (sigma0 (nth 14 rw 0%N)) (nth 15 rw 0%N)) in
      schedule n' (w :: rw)
  end.

Definition round (s : state) (kw : N * N) : state :=
  let '(a, b, c, d, e, f, g, h) := s in
  let '(k, w) := kw in
  let T1 := add32 (add32 (add32 h (Sigma1 e)) (add32 (Ch e f g) k)) w in
  let T2 := add32 (Sigma0 a) (Maj a b c) in
  (add32 T1 T2, a, b, c, add32 d T1, e, f, g).

Definition compress (s : state) (block : list N) : state :=
  let W := schedule 48 (rev block) in
  let '(a, b, c, d, e, f, g, h) := fold_left round (combine K W) s in
  let '(a0, b0, c0, d0, e0, f0, g0, h0) := s in
  (add32 a0 a, add32 b0 b, add32 c0 c, add32 d0 d,
   add32 e0 e, add32 f0 f, add32 g0 g, add32 h0 h).

(** The blocks of sixteen words, one after the other; [fuel] bounds their
    number. *)
Fixpoint blocks (fuel : nat) (ws : list N) (s : state) : state :=
  match fuel, ws with
  | S fuel', _ :: _ => blocks fuel' (skipn 16 ws) (compress s (firstn 16 ws))
  | _, _ => s
  end.

Definition digest_of (s : state) : list N :=
  let '(a, b, c, d, e, f, g, h) := s in
  be_bytes 4 a ++ be_bytes 4 b ++ be_bytes 4 c ++ be_bytes 4 d
  ++ be_bytes 4 e ++ be_bytes 4 f ++ be_bytes 4 g ++ be_bytes 4 h.

(** [hashlib.sha256(msg).digest()] *)
Definition sha256 (msg : bytes) : bytes :=
  let ws := words (pad (map Byte.to_N msg)) in
  map byte_of_N (digest_of (blocks (List.length ws) ws H0)).

(** [hashlib.sha256(msg).hexdigest()] *)
Definition hexdigest (msg : bytes) : string := hexlify (sha256 msg).

End SHA256.

(* ------------------------------------------------------------------ *)
(** * [Crypto.Cipher.AES] in ECB mode (FIPS 197)

    [AES.new(key, AES.MODE_ECB)] accepts keys of 16, 24 or 32 bytes and
    raises [ValueError] for any other length; [cipher.decrypt(data)] raises
    [ValueError] unless the length of [data] is a multiple of the 16-byte
    block, and decrypts every block on its own.  A block is the list of its
    16 bytes in input order, which is the state of FIPS 197 column by
    column. *)

Module AES.

Definition sbox : list N :=
  [0x63; 0x7c; 0x77; 0x7b; 0xf2; 0x6b; 0x6f; 0xc5; 0x30; 0x01; 0x67; 0x2b; 0xfe; 0xd7; 0xab; 0x76;
   0xca; 0x82; 0xc9; 0x7d; 0xfa; 0x59; 0x47; 0xf0; 0xad; 0xd4; 0xa2; 0xaf; 0x9c; 0xa4; 0x72; 0xc0;
   0xb7; 0xfd; 0x93; 0x26; 0x36; 0x3f; 0xf7; 0xcc; 0x34; 0xa5; 0xe5; 0xf1; 0x71; 0xd8; 0x31; 0x15;
   0x04; 0xc7; 0x23; 0xc3; 0x18; 0x96; 0x05; 0x9a; 0x07; 0x12; 0x80; 0xe2; 0xeb; 0x27; 0xb2; 0x75;
   0x09; 0x83; 0x2c; 0x1a; 0x1b; 0x6e; 0x5a; 0xa0; 0x52; 0x3b; 0xd6; 0xb3; 0x29; 0xe3; 0x2f; 0x84;
   0x53; 0xd1; 0x00; 0xed; 0x20; 0xfc; 0xb1; 0x5b; 0x6a; 0xcb; 0xbe; 0x39; 0x4a; 0x4c; 0x58; 0xcf;
   0xd0; 0xef; 0xaa; 0xfb; 0x43; 0x4d; 0x33; 0x85; 0x45; 0xf9; 0x02; 0x7f; 0x50; 0x3c; 0x9f; 0xa8;
   0x51; 0xa3; 0x40; 0x8f; 0x92; 0x9d; 0x38; 0xf5; 0xbc; 0xb6; 0xda; 0x21; 0x10; 0xff; 0xf3; 0xd2;
   0xcd; 0x0c; 0x13; 0xec; 0x5f; 0x97; 0x44; 0x17; 0xc4; 0xa7; 0x7e; 0x3d; 0x64; 0x5d; 0x19; 0x73;
   0x60; 0x81; 0x4f; 0xdc; 0x22; 0x2a; 0x90; 0x88; 0x46; 0xee; 0xb8; 0x14; 0xde; 0x5e; 0x0b; 0xdb;
   0xe0; 0x32; 0x3a; 0x0a; 0x49; 0x06; 0x24; 0x5c; 0xc2; 0xd3; 0xac; 0x62; 0x91; 0x95; 0xe4; 0x79;
   0xe7; 0xc8; 0x37; 0x6d; 0x8d; 0xd5; 0x4e; 0xa9; 0x6c; 0x56; 0xf4; 0xea; 0x65; 0x7a; 0xae; 0x08;
   0xba; 0x78; 0x25; 0x2e; 0x1c; 0xa6; 0xb4; 0xc6; 0xe8; 0xdd; 0x74; 0x1f; 0x4b; 0xbd; 0x8b; 0x8a;
   0x70; 0x3e; 0xb5; 0x66; 0x48; 0x03; 0xf6; 0x0e; 0x61; 0x35; 0x57; 0xb9; 0x86; 0xc1; 0x1d; 0x9e;
   0xe1; 0xf8; 0x98; 0x11; 0x69; 0xd9; 0x8e; 0x94; 0x9b; 0x1e; 0x87; 0xe9; 0xce; 0x55; 0x28; 0xdf;
   0x8c; 0xa1; 0x89; 0x0d; 0xbf; 0xe6; 0x42; 0x68; 0x41; 0x99; 0x2d; 0x0f; 0xb0; 0x54; 0xbb; 0x16]%N.

Definition inv_sbox : list N :=
  [0x52; 0x09; 0x6a; 0xd5; 0x30; 0x36; 0xa5; 0x38; 0xbf; 0x40; 0xa3; 0x9e; 0x81; 0xf3; 0xd7; 0xfb;
   0x7c; 0xe3; 0x39; 0x82; 0x9b; 0x2f; 0xff; 0x87; 0x34; 0x8e; 0x43; 0x44; 0xc4; 0xde; 0xe9; 0xcb;
   0x54; 0x7b; 0x94; 0x32; 0xa6; 0xc2; 0x23; 0x3d; 0xee; 0x4c; 0x95; 0x0b; 0x42; 0xfa; 0xc3; 0x4e;
   0x08; 0x2e; 0xa1; 0x66; 0x28; 0xd9; 0x24; 0xb2; 0x76; 0x5b; 0xa2; 0x49; 0x6d; 0x8b; 0xd1; 0x25;
   0x72; 0xf8; 0xf6; 0x64; 0x86; 0x68; 0x98; 0x16; 0xd4; 0xa4; 0x5c; 0xcc; 0x5d; 0x65; 0xb6; 0x92;
   0x6c; 0x70; 0x48; 0x50; 0xfd; 0xed; 0xb9; 0xda; 0x5e; 0x15; 0x46; 0x57; 0xa7; 0x8d; 0x9d; 0x84;
   0x90; 0xd8; 0xab; 0x00; 0x8c; 0xbc; 0xd3; 0x0a; 0xf7; 0xe4; 0x58; 0x05; 0xb8; 0xb3; 0x45; 0x06;
   0xd0; 0x2c; 0x1e; 0x8f; 0xca; 0x3f; 0x0f; 0x02; 0xc1; 0xaf; 0xbd; 0x03; 0x01; 0x13; 0x8a; 0x6b;
   0x3a; 0x91; 0x11; 0x41; 0x4f; 0x67; 0xdc; 0xea; 0x97; 0xf2; 0xcf; 0xce; 0xf0; 0xb4; 0xe6; 0x73;
   0x96; 0xac; 0x74; 0x22; 0xe7; 0xad; 0x35; 0x85; 0xe2; 0xf9; 0x37; 0xe8; 0x1c; 0x75; 0xdf; 0x6e;
   0x47; 0xf1; 0x1a; 0x71; 0x1d; 0x29; 0xc5; 0x89; 0x6f; 0xb7; 0x62; 0x0e; 0xaa; 0x18; 0xbe; 0x1b;
   0xfc; 0x56; 0x3e; 0x4b; 0xc6; 0xd2; 0x79; 0x20; 0x9a; 0xdb; 0xc0; 0xfe; 0x78; 0xcd; 0x5a; 0xf4;
   0x1f; 0xdd; 0xa8; 0x33; 0x88; 0x07; 0xc7; 0x31; 0xb1; 0x12; 0x10; 0x59; 0x27; 0x80; 0xec; 0x5f;
   0x60; 0x51; 0x7f; 0xa9; 0x19; 0xb5; 0x4a; 0x0d; 0x2d; 0xe5; 0x7a; 0x9f; 0x93; 0xc9; 0x9c; 0xef;
   0xa0; 0xe0; 0x3b; 0x4d; 0xae; 0x2a; 0xf5; 0xb0; 0xc8; 0xeb; 0xbb; 0x3c; 0x83; 0x53; 0x99; 0x61;
   0x17; 0x2b; 0x04; 0x7e; 0xba; 0x77; 0xd6; 0x26; 0xe1; 0x69; 0x14; 0x63; 0x55; 0x21; 0x0c; 0x7d]%N.

Definition sub (table : list N) (x : N) : N := nth (N.to_nat x) table 0%N.

(** Multiplication by x, and by any element, in GF(2^8) modulo
    x^8 + x^4 + x^3 + x + 1. *)
Definition xtime (a : N) : N :=
  let b := N.land (N.shiftl a 1) 0xff in
  if N.testbit a 7 then N.lxor b 0x1b else b.

Fixpoint gmul_bits (n : nat) (a b : N) : N :=
  match n with
  | O => 0%N
  | S n' =>
      N.lxor (if N.odd b then a else 0%N)
             (gmul_bits n' (xtime a) (N.shiftr b 1))
  end.

Definition gmul (a b : N) : N := gmul_bits 8 a b.

Fixpoint xor_bytes (a b : list N) : list N :=
  match a, b with
  | x :: a', y :: b' => N.lxor x y :: xor_bytes a' b'
  | _, _ => []
  end.

(** ** Key expansion *)

Definition rot_word (w : list N) : list N :=
  match w with
  | a :: w' => w' ++ [a]
  | [] => []
  end.

Definition sub_word (w : list N) : list N := map (sub sbox) w.

Definition rcon (j : nat) : list N :=
  [Nat.iter (j - 1) xtime 1%N; 0%N; 0%N; 0%N].

(** [rw] holds the words w(0) .. w(i-1), most recent first. *)
Fixpoint expand (fuel i Nk : nat) (rw : list (list N)) : list (list N) :=
  match fuel with
  | O => rev rw
  | S fuel' =>
      let temp := nth 0 rw [] in
      let temp' :=
        if i mod Nk =? 0 then xor_bytes (sub_word (rot_word temp)) (rcon (i / Nk))
        else if (6 <? Nk) && (i mod Nk =? 4) then sub_word temp
        else temp in
      expand fuel' (S i) Nk (xor_bytes (nth (Nk - 1) rw []) temp' :: rw)
  end.

Fixpoint group4 {A : Type} (l : list A) : list (list A) :=
  match l with
  | a :: b :: c :: d :: l' => [a; b; c; d] :: group4 l'
  | _ => []
  end.

(** The round keys for a key of [4 * Nk] bytes, Nk + 7 of them, each of
    16 bytes. *)
Definition key_expansion (key : list N) : list (list N) :=
  let Nk := List.length key / 4 in
  let w := expand (4 * (Nk + 7) - Nk) Nk Nk (rev (group4 key)) in
  map (@List.concat N) (group4 w).

(** ** The inverse cipher *)

Definition inv_shift_rows (s : list N) : list N :=
  map (fun i => nth i s 0%N)
      [0; 13; 10; 7; 4; 1; 14; 11; 8; 5; 2; 15; 12; 9; 6; 3].

Definition inv_sub_bytes (s : list N) : list N := map (sub inv_sbox) s.

Definition inv_mix_column (col : list N) : list N :=
  match col with
  | [a0; a1; a2; a3] =>
      [N.lxor (N.lxor (gmul a0 14) (gmul a1 11)) (N.lxor (gmul a2 13) (gmul a3 9));
       N.lxor (N.lxor (gmul a0 9) (gmul a1 14)) (N.lxor (gmul a2 11) (gmul a3 13));
       N.lxor (N.lxor (gmul a0 13) (gmul a1 9)) (N.lxor (gmul a2 14) (gmul a3 11));
       N.lxor (N.lxor (gmul a0 11) (gmul a1 13)) (N.lxor (gmul a2 9) (gmul a3 14))]
  | _ => col
  end.

Definition inv_mix_columns (s : list N) : list N :=
  List.concat (map inv_mix_column (group4 s)).

(** One of the rounds Nr-1 .. 1 of the inverse cipher. *)
Definition inv_round (s round_key : list N) : list N :=
  inv_mix_columns (xor_bytes (inv_sub_bytes (inv_shift_rows s)) round_key).

(** [rks] is the list of round keys, last one first. *)
Definition inv_cipher (rks : list (list N)) (block : list N) : list N :=
  match rks with
  | [] => block
  | last_key :: rks' =>
      let s := xor_bytes block last_key in
      let s := fold_left inv_round (removelast rks') s in
      xor_bytes (inv_sub_bytes (inv_shift_rows s)) (last rks' [])
  end.

(** ** The cipher object *)

Record cipher : Type := { round_keys : list (list N) }.

(** [AES.new(key, AES.MODE_ECB)] *)
Definition new (key : bytes) : result cipher :=
  let n := List.length key in
  if (n =? 16) || (n =? 24) || (n =? 32)
  then Ok {| round_keys := key_expansion (map Byte.to_N key) |}
  else Raise ValueError.

Fixpoint decrypt_blocks (fuel : nat) (rks : list (list N)) (data : list N)
  : list N :=
  match fuel, data with
  | S fuel', _ :: _ =>
      inv_cipher rks (firstn 16 data) ++ decrypt_blocks fuel' rks (skipn 16 data)
  | _, _ => []
  end.

(** [cipher.decrypt(data)] *)
Definition decrypt (c : cipher) (data : bytes) : result bytes :=
  if List.length data mod 16 =? 0
  then Ok (map byte_of_N
             (decrypt_blocks (List.length data) (rev (round_keys c))
                (map Byte.to_N data)))
  else Raise ValueError.

End AES.

(* ------------------------------------------------------------------ *)
(** * [zipfile]

    An archive is the sequence of its members in stored order: for an
    archive that is read, [infolist()] with the payload of each member; for
    an archive that is written, the [ZipInfo] objects that the writer holds
    with the payloads it was given.  The record holds the name and the
    metadata that do not depend on the payload or on the place of the
    member in the file; the sizes, the checksum and the header offset, which
    the writer recomputes, are not part of it.  [read(name)] looks the name
    up in [NameToInfo], where the last member of that name wins, and raises
    [KeyError] when there is none. *)

Record ZipInfo : Type := {
  filename : string;
  date_time : N * N * N * N * N * N;
  compress_type : N;
  flag_bits : N;
  external_attr : N;
  extra : bytes;
  comment : bytes
}.

Definition ZipFile : Type := list (ZipInfo * bytes).

Definition infolist (z : ZipFile) : list ZipInfo := map fst z.

Definition namelist (z : ZipFile) : list string := map filename (infolist z).

Fixpoint NameToInfo (z : ZipFile) (name : string) : option (ZipInfo * bytes) :=
  match z with
  | [] => None
  | (info, data) :: z' =>
      match NameToInfo z' name with
      | Some m => Some m
      | None => if String.eqb name (filename info) then Some (info, data) else None
      end
  end.

Definition zip_read (z : ZipFile) (name : string) : result bytes :=
  match NameToInfo z name with
  | Some (_, data) => Ok data
  | None => Raise KeyError
  end.

Definition ZIP_LZMA : N := 14.

(** What [ZipFile._open_to_write] does to the [ZipInfo] it is given, for an
    archive written to a file that can seek, as the one [decrypt_book] opens
    by its path: the flag bits are reset (bit 1 marks the end-of-stream
    marker of LZMA), and a member without external attributes is given the
    permissions [0o600 << 16].  The other fields of the record are taken
    over. *)
Definition open_to_write (zinfo : ZipInfo) : ZipInfo :=
  {| filename := filename zinfo;
     date_time := date_time zinfo;
     compress_type := compress_type zinfo;
     flag_bits := if (compress_type zinfo =? ZIP_LZMA)%N then 2%N else 0%N;
     external_attr :=
       if (external_attr zinfo =? 0)%N then N.shiftl 384 16   (* 0o600 << 16 *)
       else external_attr zinfo;
     extra := extra zinfo;
     comment := comment zinfo |}.

(** [z.writestr(zinfo, data)] with a [ZipInfo]: the member is appended under
    the [ZipInfo] as [_open_to_write] leaves it. *)
Definition writestr (z : ZipFile) (zinfo : ZipInfo) (data : bytes) : ZipFile :=
  z ++ [(open_to_write zinfo, data)].

(* ------------------------------------------------------------------ *)
(** * The script *)

Local Open Scope string_scope.

Definition KOBO_HASH_KEYS : list string :=
  ["88b3a2e13"; "XzUhGYdFp"; "NoCanLook"; "QJhwzAtXL"].

(** ** The device descriptor and the database

    [version_file] is [None] when [<kobo_dir>/version] does not exist, and
    otherwise the [str] that [version_file.read_text()] returns on line 31:
    the content of the file as text-mode reading hands it over, decoded
    and with every line end (CR LF, CR) turned into LF.  A file whose bytes
    do not decode makes [read_text] itself raise; the model starts from the
    text that was read. *)
Definition get_device_serial (version_file : option string) : result string :=
  match version_file with
  | None => Raise FileNotFoundError
  | Some text =>
      let content := str_strip text in
      let parts := str_split "," content in
      if (1 <=? List.length parts)%nat then getitem parts 0
      else Raise ValueError
  end.

(** The two tables of [KoboReader.sqlite] that the script queries. *)
Record KoboReader : Type := {
  user : list string;                                  (* UserID *)
  content_keys : list (string * (string * string))     (* volumeId, elementId, elementKey *)
}.

Definition get_user_id (db : KoboReader) : result string :=
  match user db with
  | [] => Raise ValueError
  | user_id :: _ => Ok user_id
  end.

Definition get_content_keys (db : KoboReader) (volume_id : string) : dict string :=
  fold_left
    (fun d row => dict_set d (fst (snd row)) (snd (snd row)))
    (filter (fun row => String.eqb (fst row) volume_id) (content_keys db))
    [].

(** ** Keys *)

Definition derive_user_key (serial user_id hash_key : string) : result bytes :=
  m1 <- encode_ascii (hash_key ++ serial) ;;
  let device_id := SHA256.hexdigest m1 in
  m2 <- encode_ascii (device_id ++ user_id) ;;
  let user_key_hex := SHA256.hexdigest m2 in
  a2b_hex (str (slice_from (chars user_key_hex) 32)).

Definition decrypt_content_key (encrypted_key_b64 : string) (master_key : bytes)
  : result bytes :=
  encrypted_key <- Base64.b64decode encrypted_key_b64 ;;
  cipher <- AES.new master_key ;;
  AES.decrypt cipher encrypted_key.

(** ** Payloads *)

Definition pkcs7_unpad (data : bytes) : result bytes :=
  padding_length <- getitem data (-1) ;;
  Ok (slice_to data (- Z.of_N (Byte.to_N padding_length))).

Definition decrypt_file_content (encrypted_content content_key : bytes)
  : result bytes :=
  cipher <- AES.new content_key ;;
  decrypted_content <- AES.decrypt cipher encrypted_content ;;
  pkcs7_unpad decrypted_content.

(** ** The book *)

(** What [decrypt_book] leaves behind: the archive it wrote and the two
    counters of its summary. *)
Record book : Type := {
  zip_out : ZipFile;
  files_decrypted : nat;
  files_copied : nat
}.

(** The first loop of [decrypt_book], over [content_keys_map.items()]. *)
Fixpoint decrypt_keys (items : list (string * string)) (user_key : bytes)
         (decrypted_keys : dict bytes) : result (dict bytes) :=
  match items with
  | [] => Ok decrypted_keys
  | (element_id, encrypted_key_b64) :: items' =>
      key <- decrypt_content_key encrypted_key_b64 user_key ;;
      decrypt_keys items' user_key (dict_set decrypted_keys element_id key)
  end.

(** The body of the second loop, for one member of [zip_in.infolist()]. *)
Definition decrypt_member (zip_in : ZipFile) (decrypted_keys : dict bytes)
           (b : book) (file_info : ZipInfo) : result book :=
  let file_path := filename file_info in
  file_content <- zip_read zip_in file_path ;;
  let normalized_path := str_replace "\" "/" file_path in
  match dict_get decrypted_keys normalized_path with
  | Some content_key =>
      match decrypt_file_content file_content content_key with
      | Ok decrypted_content =>
          Ok {| zip_out := writestr (zip_out b) file_info decrypted_content;
                files_decrypted := files_decrypted b + 1;
                files_copied := files_copied b |}
      | Raise _ =>
          Ok {| zip_out := writestr (zip_out b) file_info file_content;
                files_decrypted := files_decrypted b;
                files_copied := files_copied b |}
      end
  | None =>
      Ok {| zip_out := writestr (zip_out b) file_info file_content;
            files_decrypted := files_decrypted b;
            files_copied := files_copied b + 1 |}
  end.

Fixpoint decrypt_members (zip_in : ZipFile) (decrypted_keys : dict bytes)
         (infos : list ZipInfo) (b : book) : result book :=
  match infos with
  | [] => Ok b
  | file_info :: infos' =>
      b' <- decrypt_member zip_in decrypted_keys b file_info ;;
      decrypt_members zip_in decrypted_keys infos' b'
  end.

Definition decrypt_book (input_epub : ZipFile) (user_key : bytes)
           (content_keys_map : dict string) : result book :=
  decrypted_keys <- decrypt_keys content_keys_map user_key [] ;;
  decrypt_members input_epub decrypted_keys (infolist input_epub)
    {| zip_out := []; files_decrypted := 0; files_copied := 0 |}.

(** ** The search for the hash key *)

(** The test of lines 227-231 on the decrypted first file. *)
Definition valid_content (decrypted : bytes) : bool :=
  bytes_in (list_byte_of_string "<?xml") (slice_to decrypted 100)
  || bytes_in (list_byte_of_string "<html") (slice_to decrypted 100)
  || bytes_in [xff; xd8; xff] (slice_to decrypted 10).

(** The statements of the [try] block up to the test: decrypt the first
    content key, read the first encrypted file, decrypt it. *)
Definition decrypt_first (input_epub : ZipFile) (first_element first_key_b64 : string)
           (user_key : bytes) : result bytes :=
  decrypted_content_key <- decrypt_content_key first_key_b64 user_key ;;
  encrypted_content <- zip_read input_epub first_element ;;
  decrypt_file_content encrypted_content decrypted_content_key.

(** The whole [try] block: [Ok (Some b)] when the test passed and
    [decrypt_book] returned, [Ok None] when the test did not pass. *)
Definition try_hash_key (input_epub : ZipFile) (content_keys : dict string)
           (first_element first_key_b64 : string) (user_key : bytes)
  : result (option book) :=
  decrypted <- decrypt_first input_epub first_element first_key_b64 user_key ;;
  if valid_content decrypted then
    b <- decrypt_book input_epub user_key content_keys ;;
    Ok (Some b)
  else Ok None.

(** How [main] ends. *)
Inductive outcome : Type :=
| Success (hash_key : string) (user_key : bytes) (b : book)
| NoContentKeys          (* "No content keys found for this book", exit 1 *)
| NoKnownHashKey         (* "Could not decrypt with any known hash key", exit 1 *)
| Failed (e : exn).      (* the two outer handlers, exit 1 *)

(** The [for] loop of step 4 over a list of hash keys.  An exception raised
    outside the [try] block reaches the outer handlers of [main]; one raised
    inside it makes the loop [continue]. *)
Fixpoint try_hash_keys (hash_keys : list string) (serial user_id : string)
         (content_keys : dict string) (input_epub : ZipFile) : outcome :=
  match hash_keys with
  | [] => NoKnownHashKey
  | hash_key :: hash_keys' =>
      match derive_user_key serial user_id hash_key with
      | Raise e => Failed e
      | Ok user_key =>
          match next_iter (dict_keys content_keys) with
          | Raise e => Failed e
          | Ok first_element =>
              match dict_get content_keys first_element with
              | None => Failed KeyError
              | Some first_key_b64 =>
                  match try_hash_key input_epub content_keys
                          first_element first_key_b64 user_key with
                  | Ok (Some b) => Success hash_key user_key b
                  | Ok None | Raise _ =>
                      try_hash_keys hash_keys' serial user_id content_keys input_epub
                  end
              end
          end
      end
  end.

Definition main (version_file : option string) (db : KoboReader)
           (volume_id : string) (input_epub : ZipFile) : outcome :=
  match get_device_serial version_file with
  | Raise e => Failed e
  | Ok serial =>
      match get_user_id db with
      | Raise e => Failed e
      | Ok user_id =>
          let content_keys := get_content_keys db volume_id in
          match content_keys with
          | [] => NoContentKeys
          | _ :: _ =>
              try_hash_keys KOBO_HASH_KEYS serial user_id content_keys input_epub
          end
      end
  end.

(* ------------------------------------------------------------------ *)
(** * The vocabulary of the specification *)

(** ** Signatures (sections 2 and 4.4) *)

Definition XML_DECLARATION : bytes := list_byte_of_string "<?xml".
Definition HTML_TAG : bytes := list_byte_of_string "<html".
Definition JPEG_SOI : bytes := [xff; xd8; xff].

(** The buffer begins with the marker. *)
Definition begins_with (marker buf : bytes) : Prop :=
  exists rest, buf = (marker ++ rest)%list.

(** The marker occurs in the buffer at offset [i]. *)
Definition occurs_at (marker buf : bytes) (i : nat) : Prop :=
  firstn (List.length marker) (skipn i buf) = marker.

(** The marker occurs in the buffer and ends within its first [window]
    bytes. *)
Definition occurs_within (window : nat) (marker buf : bytes) : Prop :=
  exists i, i + List.length marker <= window /\ occurs_at marker buf i.

(** ** Padding (section 4.1) *)

(** The last byte of a buffer as an unsigned integer, 0 for the empty
    buffer. *)
Definition last_byte (data : bytes) : nat := N.to_nat (Byte.to_N (last data x00)).

(** The input with its last [n] bytes removed. *)
Definition remove_last (n : nat) (data : bytes) : bytes :=
  firstn (List.length data - n) data.

(** ** Key derivation (section 4.3) *)

Definition is_ascii (s : string) : bool :=
  forallb (fun c => (ord c <? 128)%N) (chars s).

(** The three steps of section 4.3, on the ASCII bytes of the inputs. *)
Definition deriveMasterKey (seed serial userId : string) : result bytes :=
  seed_bytes <- encode_ascii seed ;;
  serial_bytes <- encode_ascii serial ;;
  let deviceDigest := hexlify (SHA256.sha256 (seed_bytes ++ serial_bytes)%list) in
  digest_bytes <- encode_ascii deviceDigest ;;
  user_bytes <- encode_ascii userId ;;
  let userDigest := hexlify (SHA256.sha256 (digest_bytes ++ user_bytes)%list) in
  a2b_hex (str (slice (chars userDigest) 32 64)).

(** ** Transcoding (section 4.6) *)

(** The name under which a member is looked up in the content-key table. *)
Definition normalized (info : ZipInfo) : string :=
  str_replace "\" "/" (filename info).

(** The member is matched in the content-key table. *)
Definition matched (table : dict string) (info : ZipInfo) : bool :=
  dict_in (normalized info) table.

(** The metadata of a written member against those of its source: the
    name, the time, the compression method, the extra field and the comment
    are the same; external attributes that are set are the same, and where
    the source has none the written member has the permissions
    [0o600 << 16] = 25165824.  Nothing is said of the flag bits, which the
    writer sets anew. *)
Definition metadata_written (src dst : ZipInfo) : Prop :=
  filename dst = filename src
  /\ date_time dst = date_time src
  /\ compress_type dst = compress_type src
  /\ extra dst = extra src
  /\ comment dst = comment src
  /\ external_attr dst
     = (if (external_attr src =? 0)%N then 25165824%N else external_attr src).

Fixpoint distinct (l : list string) : bool :=
  match l with
  | [] => true
  | x :: l' => negb (existsb (String.eqb x) l') && distinct l'
  end.

(** What becomes of a member: copied because it is not matched, decrypted,
    or written back undecrypted because its payload could not be
    decrypted. *)
Inductive fate : Set := Copied | Decrypted | Fallback.

Definition fate_eqb (a b : fate) : bool :=
  match a, b with
  | Copied, Copied | Decrypted, Decrypted | Fallback, Fallback => true
  | _, _ => false
  end.

Definition fate_of (archive : ZipFile) (masterKey : bytes) (table : dict string)
           (info : ZipInfo) : fate :=
  match dict_get table (normalized info) with
  | None => Copied
  | Some encrypted_key_b64 =>
      match (content_key <- decrypt_content_key encrypted_key_b64 masterKey ;;
             payload <- zip_read archive (filename info) ;;
             decrypt_file_content payload content_key) with
      | Ok _ => Decrypted
      | Raise _ => Fallback
      end
  end.

Definition count_fate (f : fate) (archive : ZipFile) (masterKey : bytes)
           (table : dict string) : nat :=
  List.length
    (filter (fun info => fate_eqb (fate_of archive masterKey table info) f)
       (infolist archive)).

(** The fate of a member in terms of the table of decrypted keys. *)
Definition member_fate (archive : ZipFile) (decrypted_keys : dict bytes)
           (info : ZipInfo) : fate :=
  match dict_get decrypted_keys (normalized info) with
  | None => Copied
  | Some content_key =>
      match (payload <- zip_read archive (filename info) ;;
             decrypt_file_content payload content_key) with
      | Ok _ => Decrypted
      | Raise _ => Fallback
      end
  end.

Definition count_members (f : fate) (archive : ZipFile) (decrypted_keys : dict bytes)
           (infos : list ZipInfo) : nat :=
  List.length
    (filter (fun info => fate_eqb (member_fate archive decrypted_keys info) f) infos).

Definition bump (b : bool) : nat := if b then 1 else 0.

(** The payload that is written for a member: the decrypted payload when
    the member is matched and decrypts, the payload of the source
    otherwise. *)
Definition written (archive : ZipFile) (decrypted_keys : dict bytes)
           (info : ZipInfo) : bytes :=
  match zip_read archive (filename info) with
  | Raise _ => []
  | Ok payload =>
      match dict_get decrypted_keys (normalized info) with
      | None => payload
      | Some content_key =>
          match decrypt_file_content payload content_key with
          | Ok decrypted => decrypted
          | Raise _ => payload
          end
      end
  end.

Definition written_members (archive : ZipFile) (decrypted_keys : dict bytes)
           (infos : list ZipInfo) : ZipFile :=
  map (fun info => (open_to_write info, written archive decrypted_keys info))
    infos.

(** ** The search (section 4.4)

    The candidate passes the test of the [try] block: the first content key
    and the first file decrypt under it, and the result carries one of the
    markers. *)
Definition accepted (input_epub : ZipFile) (content_keys : dict string)
           (user_key : bytes) : bool :=
  match content_keys with
  | [] => false
  | (first_element, first_key_b64) :: _ =>
      match decrypt_first input_epub first_element first_key_b64 user_key with
      | Ok decrypted => valid_content decrypted
      | Raise _ => false
      end
  end.

(* ------------------------------------------------------------------ *)
(** * A worked book

    Serial [N905B12345] and user [abc123] with the hash key [NoCanLook] give
    the master key d5ba742e23848cba7077a6e1b310bc99.  The two chapters are
    encrypted under the content keys 00..0f and 10..1f, and these under the
    master key. *)

Definition unhex (s : string) : bytes :=
  match a2b_hex s with
  | Ok b => b
  | Raise _ => []
  end.

(** A deflated member with the attributes of a regular file of mode 644
    ([0o100644 << 16]), as an archive made on Unix has them. *)
Definition member (name : string) (payload : bytes) : ZipInfo * bytes :=
  ({| filename := name; date_time := (2024, 1, 1, 0, 0, 0)%N;
      compress_type := 8%N; flag_bits := 0%N;
      external_attr := N.shiftl 33188 16; extra := []; comment := [] |},
   payload).

(** The same member as an archiver that records no attributes and streams
    its output stores it: external attributes 0, and the flag bit 3 of a
    data descriptor. *)
Definition bare_member (name : string) (payload : bytes) : ZipInfo * bytes :=
  ({| filename := name; date_time := (2024, 1, 1, 0, 0, 0)%N;
      compress_type := 8%N; flag_bits := 8%N;
      external_attr := 0%N; extra := []; comment := [] |},
   payload).

(** The member as the writer leaves a bare member. *)
Definition private_member (name : string) (payload : bytes) : ZipInfo * bytes :=
  ({| filename := name; date_time := (2024, 1, 1, 0, 0, 0)%N;
      compress_type := 8%N; flag_bits := 0%N;
      external_attr := N.shiftl 384 16; extra := []; comment := [] |},
   payload).

Definition book_serial : string := "N905B12345".
Definition book_user_id : string := "abc123".
Definition book_volume_id : string := "48f6ea8d-bb42-499b-944a-ff211dce3379".

Definition book_master_key : bytes := unhex "d5ba742e23848cba7077a6e1b310bc99".

Definition chapter1_encrypted : bytes :=
  unhex "b8a020f8cab26a27bc55f10c139afa94c6cd4faed55827fbb2bb8fb3fadb761b".
Definition chapter2_encrypted : bytes :=
  unhex "383e67042b80e137125d1785170380a1f0bd22e9fa754b82b03003576d8ad7f4".

Definition book_epub : ZipFile :=
  [member "mimetype" (list_byte_of_string "application/epub+zip");
   member "OEBPS/chapter1.html" chapter1_encrypted;
   member "OEBPS/chapter2.html" chapter2_encrypted].

Definition book_plain : ZipFile :=
  [member "mimetype" (list_byte_of_string "application/epub+zip");
   member "OEBPS/chapter1.html" (list_byte_of_string "<html><body>One</body></html>");
   member "OEBPS/chapter2.html" (list_byte_of_string "<html><body>Two</body></html>")].

(** The same book from an archiver that records no attributes, and what
    the writer makes of its metadata. *)
Definition book_epub_bare : ZipFile :=
  [bare_member "mimetype" (list_byte_of_string "application/epub+zip");
   bare_member "OEBPS/chapter1.html" chapter1_encrypted;
   bare_member "OEBPS/chapter2.html" chapter2_encrypted].

Definition book_plain_private : ZipFile :=
  [private_member "mimetype" (list_byte_of_string "application/epub+zip");
   private_member "OEBPS/chapter1.html"
     (list_byte_of_string "<html><body>One</body></html>");
   private_member "OEBPS/chapter2.html"
     (list_byte_of_string "<html><body>Two</body></html>")].

Definition book_keys : dict string :=
  [("OEBPS/chapter1.html", "lyXc2GeLNWc+3bn/sqOLOw==");
   ("OEBPS/chapter2.html", "5wIyaQcAo4gO3o26UEQ1pg==")].

(** The same table with the second key cut short: the base64 text has lost
    its last two characters. *)
Definition book_keys_truncated : dict string :=
  [("OEBPS/chapter1.html", "lyXc2GeLNWc+3bn/sqOLOw==");
   ("OEBPS/chapter2.html", "5wIyaQcAo4gO3o26UEQ1pg")].

(** The same table with the second key cut to 20 characters, which decode
    to 15 bytes, one short of a cipher block. *)
Definition book_keys_short : dict string :=
  [("OEBPS/chapter1.html", "lyXc2GeLNWc+3bn/sqOLOw==");
   ("OEBPS/chapter2.html", "5wIyaQcAo4gO3o26UEQ1")].

(** The same table with the second key cut down to nothing: the empty text
    decodes to no byte at all, which decrypts to the empty content key. *)
Definition book_keys_emptied : dict string :=
  [("OEBPS/chapter1.html", "lyXc2GeLNWc+3bn/sqOLOw==");
   ("OEBPS/chapter2.html", "")].

(** The first chapter decrypted, the second as it is in the source. *)
Definition book_half_plain : ZipFile :=
  [member "mimetype" (list_byte_of_string "application/epub+zip");
   member "OEBPS/chapter1.html" (list_byte_of_string "<html><body>One</body></html>");
   member "OEBPS/chapter2.html" chapter2_encrypted].

(** The same archive with the last byte of the second chapter missing. *)
Definition book_epub_damaged : ZipFile :=
  [member "mimetype" (list_byte_of_string "application/epub+zip");
   member "OEBPS/chapter1.html" chapter1_encrypted;
   member "OEBPS/chapter2.html" (removelast chapter2_encrypted)].

Definition book_version_file : string :=
  "N905B12345,4.38.21908,4.9.77,4.38.21908,4.9.77,00000000-0000-0000-0000-000000000384
".

Definition book_db (keys : dict string) : KoboReader :=
  {| user := [book_user_id];
     content_keys := map (fun kv => (book_volume_id, kv)) keys |}.

(** ** Small buffers *)

(** A padded block: 13 bytes of text and 3 bytes of padding. *)
Definition padded_block : bytes :=
  (list_byte_of_string "<html></html>" ++ [x03; x03; x03])%list.

(** A block of zero bytes, and one whose last byte exceeds its length. *)
Definition zero_block : bytes := repeat x00 16.

Definition overlong_count_block : bytes := repeat xff 16.

(** An XML declaration after two spaces. *)
Definition indented_xml : bytes := list_byte_of_string "  <?xml version='1.0'?>".

(** Decryption of a hexadecimal text under a hexadecimal key. *)
Definition aes_decrypt_hex (key data : string) : result string :=
  cipher <- AES.new (unhex key) ;;
  plain <- AES.decrypt cipher (unhex data) ;;
  Ok (hexlify plain).

(** ** More vocabulary *)

(** The key lengths that [AES.new] accepts. *)
Definition valid_key_length (key : bytes) : bool :=
  let n := List.length key in
  ((n =? 16) || (n =? 24) || (n =? 32))%nat.

(** A run of white space. *)
Definition blank (l : list ascii) : bool := forallb isspace l.

(** The row of a volume that gives an element its key: a row of that
    volume and that element. *)
Definition row_of (volume_id element_id : string)
           (row : string * (string * string)) : bool :=
  String.eqb (fst row) volume_id && String.eqb (fst (snd row)) element_id.

Definition of_volume (volume_id : string) (row : string * (string * string))
  : bool :=
  String.eqb (fst row) volume_id.

(** A descriptor with a blank before the serial and a line end after the
    last field. *)
Definition padded_version_file : string :=
  (" N905B12345,4.38.21908" ++ String "010"%char EmptyString)%string.

(** A database with two volumes; the second row of the book is repeated
    with another key. *)
Definition two_volume_db : KoboReader :=
  {| user := [book_user_id];
     content_keys :=
       [(book_volume_id, ("OEBPS/chapter1.html", "lyXc2GeLNWc+3bn/sqOLOw=="));
        ("another-volume", ("OEBPS/chapter1.html", "AAAAAAAAAAAAAAAAAAAAAA=="));
        (book_volume_id, ("OEBPS/chapter2.html", "AAAAAAAAAAAAAAAAAAAAAA=="));
        (book_volume_id, ("OEBPS/chapter2.html", "5wIyaQcAo4gO3o26UEQ1pg=="))] |}.

(** The book with the first chapter stored under a name with a
    backslash. *)
Definition book_epub_backslash : ZipFile :=
  [member "mimetype" (list_byte_of_string "application/epub+zip");
   member "OEBPS\chapter1.html" chapter1_encrypted;
   member "OEBPS/chapter2.html" chapter2_encrypted].

(* ------------------------------------------------------------------ *)
(** * The models of the libraries on published vectors *)

(** FIPS 180-4, one-block and two-block messages, and the empty message. *)
Example sha256_abc :
  SHA256.hexdigest (list_byte_of_string "abc")
  = "ba7816bf8f01cfea414140de5dae2223b00361a396177a9cb410ff61f20015ad".
Proof. vm_compute. reflexivity. Qed.

Example sha256_empty :
  SHA256.hexdigest []
  = "e3b0c44298fc1c149afbf4c8996fb92427ae41e4649b934ca495991b7852b855".
Proof. vm_compute. reflexivity. Qed.

Example sha256_two_blocks :
  SHA256.hexdigest
    (list_byte_of_string "abcdbcdecdefdefgefghfghighijhijkijkljklmklmnlmnomnopnopq")
  = "248d6a61d20638b8e5c026930c3e6039a33ce45964ff2167f6ecedd419db06c1".
Proof. vm_compute. reflexivity. Qed.

(** FIPS 197, appendix C: the three key sizes. *)
Example aes128_fips197 :
  aes_decrypt_hex "000102030405060708090a0b0c0d0e0f"
                  "69c4e0d86a7b0430d8cdb78070b4c55a"
  = Ok "00112233445566778899aabbccddeeff".
Proof. vm_compute. reflexivity. Qed.

Example aes192_fips197 :
  aes_decrypt_hex "000102030405060708090a0b0c0d0e0f1011121314151617"
                  "dda97ca4864cdfe06eaf70a0ec0d7191"
  = Ok "00112233445566778899aabbccddeeff".
Proof. vm_compute. reflexivity. Qed.

Example aes256_fips197 :
  aes_decrypt_hex "000102030405060708090a0b0c0d0e0f101112131415161718191a1b1c1d1e1f"
                  "8ea2b7ca516745bfeafc49904b496089"
  = Ok "00112233445566778899aabbccddeeff".
Proof. vm_compute. reflexivity. Qed.

(** NIST SP 800-38A, ECB-AES128.Decrypt, the first two blocks. *)
Example aes128_ecb_two_blocks :
  aes_decrypt_hex "2b7e151628aed2a6abf7158809cf4f3c"
    "3ad77bb40d7a3660a89ecaf32466ef97f5d3d58503b9699de785895a96fdbaaf"
  = Ok "6bc1bee22e409f96e93d7e117393172aae2d8a571e03ac9c9eb76fac45af8e51".
Proof. vm_compute. reflexivity. Qed.

Example aes_key_length_refused :
  AES.new (unhex "2b7e151628aed2a6abf7158809cf4f") = Raise ValueError.
Proof. vm_compute. reflexivity. Qed.

Example aes_misaligned_data_refused :
  aes_decrypt_hex "2b7e151628aed2a6abf7158809cf4f3c" "3ad77bb40d7a3660a89ecaf32466ef"
  = Raise ValueError.
Proof. vm_compute. reflexivity. Qed.

(** RFC 4648 vectors, and the corner cases of the non-strict decoder. *)
Example b64decode_vectors :
  map Base64.b64decode ["Zm9vYmFy"; "Zm9vYg=="; "Zm9v YmE="; "Zg==Zm9v"; ""]
  = map (fun s => Ok (list_byte_of_string s)) ["foobar"; "foob"; "fooba"; "f"; ""].
Proof. vm_compute. reflexivity. Qed.

Example b64decode_errors :
  map Base64.b64decode ["Zm9vYg"; "Zm9vYg="; "Zm9vY"; "Z"]
  = [Raise BinasciiError; Raise BinasciiError; Raise BinasciiError; Raise BinasciiError].
Proof. vm_compute. reflexivity. Qed.

(** The worked book: its master key and what the script makes of it. *)
Example book_master_key_derived :
  derive_user_key book_serial book_user_id "NoCanLook" = Ok book_master_key.
Proof. vm_compute. reflexivity. Qed.

Example book_decrypts :
  main (Some book_version_file) (book_db book_keys) book_volume_id book_epub
  = Success "NoCanLook" book_master_key
      {| zip_out := book_plain; files_decrypted := 2; files_copied := 1 |}.
Proof. vm_compute. reflexivity. Qed.

(* ------------------------------------------------------------------ *)
(** * Slices and indices *)

Local Open Scope list_scope.
Local Open Scope nat_scope.

Lemma firstn_min_length (A : Type) (w : nat) (l : list A) :
  firstn (Nat.min w (List.length l)) l = firstn w l.
Proof.
  destruct (Nat.le_ge_cases w (List.length l)) as [Hle | Hge].
  - now rewrite Nat.min_l.
  - rewrite Nat.min_r by assumption.
    now rewrite !firstn_all2 by lia.
Qed.

Lemma slice_to_of_nat (A : Type) (l : list A) (w : nat) :
  slice_to l (Z.of_nat w) = firstn w l.
Proof.
  unfold slice_to, clip.
  destruct (Z.ltb_spec (Z.of_nat w) 0) as [Hneg | _]; [lia |].
  rewrite <- Nat2Z.inj_min, Nat2Z.id.
  apply firstn_min_length.
Qed.

Lemma slice_to_zero (A : Type) (l : list A) : slice_to l 0 = [].
Proof. exact (slice_to_of_nat l 0). Qed.

Lemma slice_to_negative (A : Type) (l : list A) (n : nat) :
  0 < n -> slice_to l (- Z.of_nat n) = firstn (List.length l - n) l.
Proof.
  intros Hn. unfold slice_to, clip.
  destruct (Z.ltb_spec (- Z.of_nat n) 0) as [_ | Hpos]; [| lia].
  f_equal. lia.
Qed.

Lemma slice_from_of_nat (A : Type) (l : list A) (w : nat) :
  slice_from l (Z.of_nat w) = skipn w l.
Proof.
  unfold slice_from, clip.
  destruct (Z.ltb_spec (Z.of_nat w) 0) as [Hneg | _]; [lia |].
  rewrite <- Nat2Z.inj_min, Nat2Z.id.
  destruct (Nat.le_ge_cases w (List.length l)) as [Hle | Hge].
  - now rewrite Nat.min_l.
  - rewrite Nat.min_r by assumption.
    now rewrite !skipn_all2 by lia.
Qed.

Lemma getitem_minus_one (A : Type) (l : list A) (x : A) :
  getitem (l ++ [x]) (-1) = Ok x.
Proof.
  unfold getitem. rewrite length_app. cbn [List.length].
  change (-1 <? 0)%Z with true. cbv iota.
  replace (-1 + Z.of_nat (List.length l + 1))%Z
    with (Z.of_nat (List.length l)) by lia.
  destruct (Z.ltb_spec (Z.of_nat (List.length l)) 0) as [Hneg | _]; [lia |].
  destruct (Z.leb_spec (Z.of_nat (List.length l + 1)) (Z.of_nat (List.length l)))
    as [Hle | _]; [lia |].
  cbn [orb]. rewrite Nat2Z.id, nth_error_app2 by lia.
  now rewrite Nat.sub_diag.
Qed.

Lemma getitem_last (data : bytes) :
  data <> [] -> getitem data (-1) = Ok (last data x00).
Proof.
  intros Hne.
  rewrite (app_removelast_last x00 Hne) at 1.
  apply getitem_minus_one.
Qed.

Lemma getitem_empty (A : Type) (i : Z) : getitem (@nil A) i = Raise IndexError.
Proof.
  unfold getitem. cbn [List.length Z.of_nat].
  destruct (i <? 0)%Z eqn:Hi.
  - rewrite Z.add_0_r, Hi. reflexivity.
  - destruct (Z.leb_spec 0 i) as [_ | Hlt]; [| apply Z.ltb_ge in Hi; lia].
    now rewrite orb_true_r.
Qed.

(* ------------------------------------------------------------------ *)
(** * The padding codec *)

(** What [pkcs7_unpad] computes on a non-empty buffer, case by case. *)
Lemma pkcs7_unpad_cases (data : bytes) :
  data <> [] ->
  pkcs7_unpad data
  = Ok (if last_byte data =? 0 then [] else remove_last (last_byte data) data).
Proof.
  intros Hne. unfold pkcs7_unpad.
  rewrite (getitem_last Hne). cbn [bind].
  unfold last_byte, remove_last.
  destruct (Nat.eqb_spec (N.to_nat (Byte.to_N (last data x00))) 0) as [Hz | Hnz].
  - replace (Byte.to_N (last data x00)) with 0%N by lia.
    now rewrite slice_to_zero.
  - rewrite <- slice_to_negative by lia.
    now rewrite N_nat_Z.
Qed.

Lemma pkcs7_unpad_empty : pkcs7_unpad [] = Raise IndexError.
Proof. reflexivity. Qed.

(** C8, as amended.  A non-empty buffer of whole cipher blocks whose last
    byte N is not zero loses its last N bytes, all of them when N is at
    least its length. *)
Theorem pkcs7_unpad_removes_padding (data : bytes) :
  data <> [] ->
  List.length data mod 16 = 0 ->
  last_byte data <> 0 ->
  pkcs7_unpad data = Ok (remove_last (last_byte data) data).
Proof.
  intros Hne _ Hnz.
  rewrite (pkcs7_unpad_cases Hne).
  destruct (Nat.eqb_spec (last_byte data) 0); [contradiction | reflexivity].
Qed.

Lemma pkcs7_unpad_removes_padding_witness :
  pkcs7_unpad padded_block = Ok (list_byte_of_string "<html></html>").
Proof.
  apply (pkcs7_unpad_removes_padding (data := padded_block)).
  - discriminate.
  - reflexivity.
  - discriminate.
Defined.

(** C8, as stated, fails on a block that ends in a zero byte: nothing
    should be removed, and everything is. *)
Lemma pkcs7_unpad_zero_count_counterexample :
  zero_block <> []
  /\ List.length zero_block mod 16 = 0
  /\ remove_last (last_byte zero_block) zero_block = zero_block
  /\ pkcs7_unpad zero_block = Ok []
  /\ pkcs7_unpad zero_block <> Ok (remove_last (last_byte zero_block) zero_block).
Proof. repeat split; discriminate. Qed.

(** C10.  On a non-empty buffer [pkcs7_unpad] returns, and what it returns
    is empty when the last byte is zero or at least the length of the
    buffer. *)
Theorem pkcs7_unpad_never_raises (data : bytes) :
  data <> [] ->
  exists out,
    pkcs7_unpad data = Ok out
    /\ (last_byte data = 0 \/ List.length data <= last_byte data -> out = []).
Proof.
  intros Hne. rewrite (pkcs7_unpad_cases Hne).
  eexists. split; [reflexivity |].
  intros [Hz | Hlen].
  - now rewrite Hz.
  - destruct (last_byte data =? 0); [reflexivity |].
    unfold remove_last.
    now replace (List.length data - last_byte data) with 0 by lia.
Qed.

Lemma pkcs7_unpad_never_raises_witness :
  exists out,
    pkcs7_unpad overlong_count_block = Ok out
    /\ (last_byte overlong_count_block = 0
        \/ List.length overlong_count_block <= last_byte overlong_count_block
        -> out = []).
Proof.
  apply (pkcs7_unpad_never_raises (data := overlong_count_block)).
  discriminate.
Defined.

(* ------------------------------------------------------------------ *)
(** * The device descriptor *)

Lemma str_split_not_empty (sep : ascii) (s : string) : str_split sep s <> [].
Proof.
  destruct s as [| c s]; cbn [str_split]; [discriminate |].
  destruct (Ascii.eqb c sep); [discriminate |].
  destruct (str_split sep s); discriminate.
Qed.

(** An existing descriptor always yields a serial, the text before the first
    comma of its stripped content. *)
Lemma get_device_serial_first_field (text : string) :
  get_device_serial (Some text)
  = Ok (hd EmptyString (str_split "," (str_strip text))).
Proof.
  unfold get_device_serial.
  pose proof (str_split_not_empty "," (str_strip text)) as Hne.
  destruct (str_split "," (str_strip text)) as [| p ps]; [contradiction |].
  reflexivity.
Qed.

Lemma get_device_serial_missing : get_device_serial None = Raise FileNotFoundError.
Proof. reflexivity. Qed.

(** The [ValueError] of the last line of [get_device_serial] is never
    raised. *)
Lemma get_device_serial_never_malformed (version_file : option string) :
  get_device_serial version_file <> Raise ValueError.
Proof.
  destruct version_file as [text |]; [| discriminate].
  rewrite get_device_serial_first_field. discriminate.
Qed.

(** C9.  A descriptor without any field, empty or blank, is not refused:
    the empty string is returned as the serial. *)
Theorem get_device_serial_accepts_empty_descriptor :
  get_device_serial (Some "") = Ok ""%string
  /\ get_device_serial (Some "  ") = Ok ""%string.
Proof. split; reflexivity. Qed.

(* ------------------------------------------------------------------ *)
(** * The signature test *)

Lemma startswith_spec (needle hay : bytes) :
  startswith needle hay = true <-> firstn (List.length needle) hay = needle.
Proof.
  revert hay. induction needle as [| a needle IH]; intros hay.
  - split; reflexivity.
  - destruct hay as [| b hay]; cbn [startswith List.length firstn].
    + split; discriminate.
    + rewrite andb_true_iff, IH. split.
      * intros [Hab Htl]. apply byte_dec_bl in Hab. now rewrite Hab, Htl.
      * intros Heq. injection Heq as Hab Htl.
        split; [now apply byte_dec_lb | assumption].
Qed.

Lemma bytes_in_spec (needle hay : bytes) :
  bytes_in needle hay = true <-> exists i, occurs_at needle hay i.
Proof.
  unfold occurs_at.
  induction hay as [| b hay IH]; cbn [bytes_in]; rewrite orb_true_iff.
  - rewrite startswith_spec. split.
    + intros [H | H]; [now exists 0 | discriminate].
    + intros [i Hi]. left. now rewrite skipn_nil in Hi.
  - rewrite startswith_spec, IH. split.
    + intros [H | [i Hi]]; [now exists 0 | now exists (S i)].
    + intros [[| i] Hi]; [now left | right; now exists i].
Qed.

(** An occurrence in the first [window] bytes is an occurrence that ends
    within them. *)
Lemma occurs_in_window (window : nat) (marker buf : bytes) :
  (exists i, occurs_at marker (firstn window buf) i)
  <-> occurs_within window marker buf.
Proof.
  unfold occurs_within, occurs_at. split.
  - intros [i Hi].
    destruct (Nat.le_gt_cases (i + List.length marker) window) as [Hfit | Hout].
    + exists i. split; [assumption |].
      rewrite skipn_firstn_comm, firstn_firstn in Hi.
      now rewrite Nat.min_l in Hi by lia.
    + assert (Hlen : List.length marker <= window - i).
      { rewrite <- Hi at 1. rewrite skipn_firstn_comm, firstn_firstn.
        etransitivity; [apply firstn_le_length |]. apply Nat.le_min_r. }
      assert (Hempty : List.length marker = 0) by lia.
      exists 0. split; [lia |].
      destruct marker; [reflexivity | discriminate].
  - intros [i [Hfit Hi]]. exists i.
    rewrite skipn_firstn_comm, firstn_firstn.
    now rewrite Nat.min_l by lia.
Qed.

Lemma bytes_in_slice_to (window : nat) (marker buf : bytes) :
  bytes_in marker (slice_to buf (Z.of_nat window)) = true
  <-> occurs_within window marker buf.
Proof. now rewrite slice_to_of_nat, bytes_in_spec, occurs_in_window. Qed.

(** A marker at the very beginning is found, provided it fits the window. *)
Lemma begins_with_occurs_within (window : nat) (marker buf : bytes) :
  List.length marker <= window ->
  begins_with marker buf -> occurs_within window marker buf.
Proof.
  intros Hfit [rest ->]. exists 0. split; [assumption |].
  unfold occurs_at. cbn [skipn].
  rewrite firstn_app, Nat.sub_diag, firstn_all. cbn [firstn].
  apply app_nil_r.
Qed.

(** C1, as amended.  The decrypted buffer passes the test exactly when the
    XML declaration or the HTML tag occurs somewhere in its first 100 bytes,
    or the JPEG marker somewhere in its first 10 bytes. *)
Theorem valid_content_iff_marker_in_window (decrypted : bytes) :
  valid_content decrypted = true
  <-> occurs_within 100 XML_DECLARATION decrypted
      \/ occurs_within 100 HTML_TAG decrypted
      \/ occurs_within 10 JPEG_SOI decrypted.
Proof.
  unfold valid_content.
  change 100%Z with (Z.of_nat 100). change 10%Z with (Z.of_nat 10).
  rewrite !orb_true_iff, !bytes_in_slice_to.
  tauto.
Qed.

(** A buffer that begins with one of the three markers passes the test. *)
Lemma begins_with_marker_valid (decrypted : bytes) :
  begins_with XML_DECLARATION decrypted
  \/ begins_with HTML_TAG decrypted
  \/ begins_with JPEG_SOI decrypted ->
  valid_content decrypted = true.
Proof.
  rewrite valid_content_iff_marker_in_window.
  intros [H | [H | H]]; [left | right; left | right; right];
    (apply begins_with_occurs_within; [cbn; lia | exact H]).
Qed.

(** C1, as stated, fails on a buffer in which the XML declaration follows
    two spaces: the buffer begins with none of the markers and passes the
    test. *)
Lemma valid_content_not_prefix_counterexample :
  valid_content indented_xml = true
  /\ ~ (begins_with XML_DECLARATION indented_xml
        \/ begins_with HTML_TAG indented_xml
        \/ begins_with JPEG_SOI indented_xml).
Proof.
  split; [reflexivity |].
  intros [[rest H] | [[rest H] | [rest H]]]; discriminate H.
Qed.

(* ------------------------------------------------------------------ *)
(** * Key derivation *)

Lemma chars_append (a b : string) :
  chars (a ++ b)%string = chars a ++ chars b.
Proof.
  unfold chars. induction a as [| c a IH]; cbn; [reflexivity | now rewrite IH].
Qed.

Lemma length_chars (s : string) : List.length (chars s) = String.length s.
Proof.
  unfold chars. induction s as [| c s IH]; cbn; [reflexivity | now rewrite IH].
Qed.

Lemma is_ascii_append (a b : string) :
  is_ascii (a ++ b)%string = is_ascii a && is_ascii b.
Proof. unfold is_ascii. now rewrite chars_append, forallb_app. Qed.

(** Encoding succeeds exactly on the strings of code points below 128. *)
Lemma encode_ascii_spec (s : string) :
  encode_ascii s
  = if is_ascii s then Ok (map byte_of_ascii (chars s))
    else Raise UnicodeEncodeError.
Proof.
  induction s as [| c s IH]; [reflexivity |].
  cbn [encode_ascii]. unfold is_ascii, chars in *.
  cbn [list_ascii_of_string forallb map].
  destruct (ord c <? 128)%N; [| reflexivity].
  rewrite IH. cbn [andb].
  now destruct (forallb _ (list_ascii_of_string s)).
Qed.

Lemma encode_ascii_append (a b : string) :
  encode_ascii (a ++ b)%string
  = (a' <- encode_ascii a ;; b' <- encode_ascii b ;; Ok (a' ++ b')).
Proof.
  rewrite !encode_ascii_spec, is_ascii_append, chars_append, map_app.
  destruct (is_ascii a), (is_ascii b); reflexivity.
Qed.

(** One byte and its two digits. *)
Lemma unhex_pairs_hexlify_byte (x : byte) (s : string) :
  unhex_pairs (String (hex_digit (Byte.to_N x / 16))
                 (String (hex_digit (Byte.to_N x mod 16)) s))
  = (bs <- unhex_pairs s ;; Ok (x :: bs)).
Proof. destruct x; reflexivity. Qed.

Lemma is_ascii_hex_digits (x : byte) :
  (ord (hex_digit (Byte.to_N x / 16)) <? 128)%N
  && (ord (hex_digit (Byte.to_N x mod 16)) <? 128)%N = true.
Proof. destruct x; reflexivity. Qed.

Lemma is_ascii_hexlify (b : bytes) : is_ascii (hexlify b) = true.
Proof.
  unfold is_ascii, chars.
  induction b as [| x b IH]; [reflexivity |].
  cbn [hexlify list_ascii_of_string forallb].
  rewrite IH, andb_true_r. apply is_ascii_hex_digits.
Qed.

Lemma length_hexlify (b : bytes) : String.length (hexlify b) = 2 * List.length b.
Proof.
  induction b as [| x b IH]; [reflexivity |].
  cbn [hexlify String.length List.length]. lia.
Qed.

Lemma unhex_pairs_hexlify (b : bytes) : unhex_pairs (hexlify b) = Ok b.
Proof.
  induction b as [| x b IH]; [reflexivity |].
  cbn [hexlify]. cbv zeta.
  now rewrite unhex_pairs_hexlify_byte, IH.
Qed.

(** [a2b_hex] undoes [hexlify]. *)
Lemma a2b_hex_hexlify (b : bytes) : a2b_hex (hexlify b) = Ok b.
Proof.
  unfold a2b_hex.
  rewrite encode_ascii_spec, is_ascii_hexlify, length_hexlify.
  replace (Nat.even (2 * List.length b)) with true.
  - apply unhex_pairs_hexlify.
  - symmetry. apply Nat.even_spec. now exists (List.length b).
Qed.

Lemma skipn_chars_hexlify (n : nat) (b : bytes) :
  skipn (2 * n) (chars (hexlify b)) = chars (hexlify (skipn n b)).
Proof.
  revert b. induction n as [| n IH]; intros b; [reflexivity |].
  destruct b as [| x b]; [reflexivity |].
  replace (2 * S n) with (S (S (2 * n))) by lia.
  cbn [hexlify]. cbv zeta. unfold chars in *.
  cbn [list_ascii_of_string skipn]. apply IH.
Qed.

(** The digest has 32 bytes, its hexadecimal rendering 64 characters. *)
Lemma length_sha256 (msg : bytes) : List.length (SHA256.sha256 msg) = 32.
Proof.
  unfold SHA256.sha256. rewrite length_map.
  destruct (SHA256.blocks _ _ _) as [[[[[[[a b] c] d] e] f] g] h].
  reflexivity.
Qed.

Lemma length_hexdigest (msg : bytes) : String.length (SHA256.hexdigest msg) = 64.
Proof. unfold SHA256.hexdigest. now rewrite length_hexlify, length_sha256. Qed.

(** The second half of a hexadecimal digest, sliced either way, decodes to
    the last 16 bytes of the digest. *)
Lemma second_half_open (msg : bytes) :
  str (slice_from (chars (SHA256.hexdigest msg)) 32)
  = hexlify (skipn 16 (SHA256.sha256 msg)).
Proof.
  change 32%Z with (Z.of_nat (2 * 16)).
  rewrite slice_from_of_nat. unfold SHA256.hexdigest.
  rewrite skipn_chars_hexlify. apply string_of_list_ascii_of_string.
Qed.

Lemma second_half_closed (msg : bytes) :
  str (slice (chars (SHA256.hexdigest msg)) 32 64)
  = hexlify (skipn 16 (SHA256.sha256 msg)).
Proof.
  rewrite <- second_half_open. f_equal.
  unfold slice, slice_from.
  rewrite length_chars, length_hexdigest.
  change (clip 64 32) with 32. change (clip 64 64) with 64.
  apply firstn_all2.
  rewrite length_skipn, length_chars, length_hexdigest. lia.
Qed.

Lemma length_second_half (msg : bytes) :
  List.length (skipn 16 (SHA256.sha256 msg)) = 16.
Proof. now rewrite length_skipn, length_sha256. Qed.

(** [derive_user_key] in closed form. *)
Lemma derive_user_key_cases (serial user_id hash_key : string) :
  derive_user_key serial user_id hash_key
  = if is_ascii hash_key && is_ascii serial && is_ascii user_id
    then
      let m1 := map byte_of_ascii (chars hash_key) ++ map byte_of_ascii (chars serial) in
      let m2 := map byte_of_ascii (chars (SHA256.hexdigest m1))
                ++ map byte_of_ascii (chars user_id) in
      Ok (skipn 16 (SHA256.sha256 m2))
    else Raise UnicodeEncodeError.
Proof.
  unfold derive_user_key.
  rewrite encode_ascii_append.
  rewrite (encode_ascii_spec hash_key), (encode_ascii_spec serial).
  destruct (is_ascii hash_key), (is_ascii serial); cbn [bind andb];
    try reflexivity.
  rewrite encode_ascii_append.
  unfold SHA256.hexdigest at 1.
  rewrite (encode_ascii_spec (hexlify _)), is_ascii_hexlify. cbn [bind].
  rewrite (encode_ascii_spec user_id).
  destruct (is_ascii user_id); cbn [bind]; [| reflexivity].
  now rewrite second_half_open, a2b_hex_hexlify.
Qed.

Lemma deriveMasterKey_cases (seed serial userId : string) :
  deriveMasterKey seed serial userId
  = if is_ascii seed && is_ascii serial && is_ascii userId
    then
      let m1 := map byte_of_ascii (chars seed) ++ map byte_of_ascii (chars serial) in
      let m2 := map byte_of_ascii (chars (SHA256.hexdigest m1))
                ++ map byte_of_ascii (chars userId) in
      Ok (skipn 16 (SHA256.sha256 m2))
    else Raise UnicodeEncodeError.
Proof.
  unfold deriveMasterKey.
  rewrite (encode_ascii_spec seed), (encode_ascii_spec serial).
  destruct (is_ascii seed), (is_ascii serial); cbn [bind andb];
    try reflexivity.
  rewrite (encode_ascii_spec (hexlify _)), is_ascii_hexlify. cbn [bind].
  rewrite (encode_ascii_spec userId).
  destruct (is_ascii userId); cbn [bind]; [| reflexivity].
  change (hexlify (SHA256.sha256 ?m)) with (SHA256.hexdigest m).
  now rewrite second_half_closed, a2b_hex_hexlify.
Qed.

(** C3.  [derive_user_key] and the three steps of section 4.3 agree on every
    input, exceptions included; on ASCII inputs both return a key, and the
    key has 16 bytes. *)
Theorem derive_user_key_refines_spec (seed serial userId : string) :
  derive_user_key serial userId seed = deriveMasterKey seed serial userId
  /\ (is_ascii seed = true -> is_ascii serial = true -> is_ascii userId = true ->
      exists key,
        derive_user_key serial userId seed = Ok key /\ List.length key = 16).
Proof.
  rewrite derive_user_key_cases, deriveMasterKey_cases.
  split; [reflexivity |].
  intros -> -> ->. cbn [andb]. cbv zeta.
  eexists. split; [reflexivity | apply length_second_half].
Qed.

Lemma derive_user_key_refines_spec_witness :
  exists key,
    derive_user_key book_serial book_user_id "NoCanLook" = Ok key
    /\ List.length key = 16.
Proof.
  apply (proj2 (derive_user_key_refines_spec "NoCanLook" book_serial book_user_id));
    reflexivity.
Defined.

(* ------------------------------------------------------------------ *)
(** * Dictionaries and archives *)

Lemma dict_get_set (V : Type) (d : dict V) (k k' : string) (v : V) :
  dict_get (dict_set d k v) k' = if String.eqb k' k then Some v else dict_get d k'.
Proof.
  induction d as [| [k0 v0] d IH]; cbn [dict_set dict_get]; [reflexivity |].
  destruct (String.eqb_spec k k0) as [-> | Hk]; cbn [dict_get].
  - now destruct (String.eqb k' k0).
  - rewrite IH.
    destruct (String.eqb_spec k' k0) as [-> | Hk']; [| reflexivity].
    destruct (String.eqb_spec k0 k) as [-> | _]; [contradiction | reflexivity].
Qed.

Lemma dict_in_set (V : Type) (d : dict V) (k k' : string) (v : V) :
  dict_in k' (dict_set d k v) = String.eqb k' k || dict_in k' d.
Proof.
  unfold dict_in. rewrite dict_get_set.
  now destruct (String.eqb k' k).
Qed.

Lemma dict_get_absent (V : Type) (d : dict V) (k : string) :
  existsb (String.eqb k) (dict_keys d) = false -> dict_get d k = None.
Proof.
  induction d as [| [k0 v0] d IH]; cbn; [reflexivity |].
  destruct (String.eqb k k0); [discriminate | exact IH].
Qed.

Lemma NameToInfo_absent (z : ZipFile) (name : string) :
  existsb (String.eqb name) (namelist z) = false -> NameToInfo z name = None.
Proof.
  induction z as [| [info data] z IH]; cbn; [reflexivity |].
  destruct (String.eqb name (filename info)); [discriminate |].
  intros H. now rewrite (IH H).
Qed.

Lemma NameToInfo_listed (z : ZipFile) (name : string) :
  In name (namelist z) -> exists m, NameToInfo z name = Some m.
Proof.
  induction z as [| [info data] z IH]; cbn; [contradiction |].
  intros Hin. destruct (NameToInfo z name) as [m |] eqn:Hz; [now exists m |].
  destruct Hin as [<- | Hin].
  - rewrite String.eqb_refl. now eexists.
  - destruct (IH Hin) as [m Hm]. discriminate.
Qed.

(** Every listed member can be read. *)
Lemma zip_read_listed (z : ZipFile) (name : string) :
  In name (namelist z) -> exists data, zip_read z name = Ok data.
Proof.
  intros Hin. unfold zip_read.
  destruct (NameToInfo_listed z name Hin) as [[info data] ->]. now exists data.
Qed.

(** When the names are distinct, reading a member by its name gives its own
    payload. *)
Lemma zip_read_distinct (z : ZipFile) (info : ZipInfo) (data : bytes) :
  distinct (namelist z) = true ->
  In (info, data) z -> zip_read z (filename info) = Ok data.
Proof.
  unfold zip_read.
  induction z as [| [info0 data0] z IH]; cbn; [contradiction |].
  intros Hd Hin. apply andb_true_iff in Hd as [Hfresh Hd].
  apply negb_true_iff in Hfresh.
  destruct Hin as [Heq | Hin].
  - injection Heq as -> ->.
    rewrite (NameToInfo_absent z _ Hfresh), String.eqb_refl. reflexivity.
  - specialize (IH Hd Hin).
    destruct (NameToInfo z (filename info)) as [[i d] |]; [exact IH | discriminate].
Qed.

(* ------------------------------------------------------------------ *)
(** * The content keys of [decrypt_book] *)

(** The first loop raises as soon as one key of the table fails to decode
    or to decrypt. *)
Lemma decrypt_keys_ok (items : list (string * string)) (user_key : bytes)
      (acc : dict bytes) :
  is_ok (decrypt_keys items user_key acc)
  = forallb (fun kv => is_ok (decrypt_content_key (snd kv) user_key)) items.
Proof.
  revert acc. induction items as [| [k b64] items IH]; intros acc; [reflexivity |].
  cbn [decrypt_keys forallb snd].
  destruct (decrypt_content_key b64 user_key) as [key | e]; cbn [bind is_ok andb].
  - apply IH.
  - reflexivity.
Qed.

(** The decrypted table has the keys of the table. *)
Lemma decrypt_keys_domain (items : list (string * string)) (user_key : bytes)
      (acc dk : dict bytes) (name : string) :
  decrypt_keys items user_key acc = Ok dk ->
  dict_in name dk = dict_in name acc || dict_in name items.
Proof.
  revert acc. induction items as [| [k b64] items IH]; intros acc; cbn [decrypt_keys].
  - intros [= <-]. unfold dict_in at 3. cbn. now rewrite orb_false_r.
  - destruct (decrypt_content_key b64 user_key) as [key | e]; cbn [bind];
      [| discriminate].
    intros H. rewrite (IH _ H), dict_in_set.
    unfold dict_in at 4. cbn [dict_get].
    fold (dict_in name items).
    destruct (String.eqb name k), (dict_in name acc); reflexivity.
Qed.

(** With distinct keys, the decrypted table holds under each key the
    decryption of what the table holds. *)
Lemma decrypt_keys_values (items : list (string * string)) (user_key : bytes)
      (acc dk : dict bytes) (name : string) :
  distinct (dict_keys items) = true ->
  decrypt_keys items user_key acc = Ok dk ->
  match dict_get items name with
  | Some encrypted_key_b64 =>
      exists key, decrypt_content_key encrypted_key_b64 user_key = Ok key
                  /\ dict_get dk name = Some key
  | None => dict_get dk name = dict_get acc name
  end.
Proof.
  revert acc. induction items as [| [k b64] items IH]; intros acc Hd;
    cbn [decrypt_keys].
  - now intros [= <-].
  - cbn in Hd. apply andb_true_iff in Hd as [Hfresh Hd].
    apply negb_true_iff in Hfresh.
    destruct (decrypt_content_key b64 user_key) as [key | e] eqn:Hkey;
      cbn [bind]; [| discriminate].
    intros H. specialize (IH _ Hd H). cbn [dict_get].
    destruct (String.eqb_spec name k) as [-> | Hne].
    + rewrite (dict_get_absent items k Hfresh) in IH.
      rewrite dict_get_set, String.eqb_refl in IH. now exists key.
    + destruct (dict_get items name); [exact IH |].
      rewrite dict_get_set in IH.
      destruct (String.eqb_spec name k); [contradiction | exact IH].
Qed.

(* ------------------------------------------------------------------ *)
(** * The members of [decrypt_book] *)

(** One turn of the second loop on a member that can be read: it never
    raises, appends the member under its own [ZipInfo] as the writer leaves
    it, and moves at most one counter. *)
Lemma decrypt_member_spec (z : ZipFile) (dk : dict bytes) (b : book)
      (info : ZipInfo) (content : bytes) :
  zip_read z (filename info) = Ok content ->
  exists b',
    decrypt_member z dk b info = Ok b'
    /\ zip_out b' = zip_out b ++ [(open_to_write info, written z dk info)]
    /\ files_decrypted b'
       = files_decrypted b + bump (fate_eqb (member_fate z dk info) Decrypted)
    /\ files_copied b'
       = files_copied b + bump (fate_eqb (member_fate z dk info) Copied).
Proof.
  intros Hread. unfold decrypt_member, member_fate, written.
  rewrite Hread. cbn [bind]. fold (normalized info).
  destruct (dict_get dk (normalized info)) as [key |].
  - destruct (decrypt_file_content content key) as [plain | e];
      eexists; (split; [reflexivity |]); cbn; repeat split; lia.
  - eexists. split; [reflexivity |]. cbn. repeat split; lia.
Qed.

(** The second loop over members that can all be read: it never raises, and
    writes one member per member read, in order. *)
Lemma decrypt_members_spec (z : ZipFile) (dk : dict bytes)
      (infos : list ZipInfo) (b0 : book) :
  (forall info, In info infos -> In (filename info) (namelist z)) ->
  exists b,
    decrypt_members z dk infos b0 = Ok b
    /\ zip_out b = zip_out b0 ++ written_members z dk infos
    /\ files_decrypted b = files_decrypted b0 + count_members Decrypted z dk infos
    /\ files_copied b = files_copied b0 + count_members Copied z dk infos.
Proof.
  unfold count_members, written_members.
  revert b0. induction infos as [| info infos IH]; intros b0 Hlisted.
  - exists b0. cbn. rewrite app_nil_r. repeat split; lia.
  - destruct (zip_read_listed z (filename info)) as [content Hread].
    { apply Hlisted. now left. }
    destruct (decrypt_member_spec z dk b0 info Hread)
      as (b1 & Hstep & Hout & Hdec & Hcop).
    destruct (IH b1) as (b & Hrun & Houts & Hdec' & Hcop').
    { intros i Hi. apply Hlisted. now right. }
    exists b. cbn [decrypt_members]. rewrite Hstep. cbn [bind].
    split; [exact Hrun |].
    split; [now rewrite Houts, Hout, <- app_assoc |].
    cbn [filter]. rewrite Hdec', Hcop', Hdec, Hcop. unfold bump.
    destruct (member_fate z dk info); cbn; lia.
Qed.

Lemma infolist_listed (z : ZipFile) (info : ZipInfo) :
  In info (infolist z) -> In (filename info) (namelist z).
Proof. unfold namelist. apply in_map. Qed.

(** [decrypt_book] returns exactly when every key of the table decodes and
    decrypts under the user key, whatever the archive holds. *)
Lemma decrypt_book_ok (z : ZipFile) (user_key : bytes) (table : dict string) :
  is_ok (decrypt_book z user_key table)
  = forallb (fun kv => is_ok (decrypt_content_key (snd kv) user_key)) table.
Proof.
  rewrite <- (decrypt_keys_ok table user_key []).
  unfold decrypt_book.
  destruct (decrypt_keys table user_key []) as [dk | e]; cbn [bind is_ok];
    [| reflexivity].
  destruct (decrypt_members_spec z dk (infolist z)
              {| zip_out := []; files_decrypted := 0; files_copied := 0 |}
              (infolist_listed z)) as (b & -> & _).
  reflexivity.
Qed.

(** One key of the table that fails to decode or to decrypt makes
    [decrypt_book] raise. *)
Lemma decrypt_book_raises (z : ZipFile) (user_key : bytes) (table : dict string)
      (name encrypted_key_b64 : string) :
  In (name, encrypted_key_b64) table ->
  is_ok (decrypt_content_key encrypted_key_b64 user_key) = false ->
  is_ok (decrypt_book z user_key table) = false.
Proof.
  intros Hin Hbad. rewrite decrypt_book_ok.
  apply not_true_is_false. intros Hall.
  rewrite forallb_forall in Hall.
  specialize (Hall _ Hin). cbn [snd] in Hall. congruence.
Qed.

(** What [decrypt_book] leaves behind when it returns. *)
Lemma decrypt_book_spec (z : ZipFile) (user_key : bytes) (table : dict string)
      (b : book) :
  decrypt_book z user_key table = Ok b ->
  exists dk,
    decrypt_keys table user_key [] = Ok dk
    /\ zip_out b = written_members z dk (infolist z)
    /\ files_decrypted b = count_members Decrypted z dk (infolist z)
    /\ files_copied b = count_members Copied z dk (infolist z).
Proof.
  unfold decrypt_book.
  destruct (decrypt_keys table user_key []) as [dk | e]; cbn [bind];
    [| discriminate].
  destruct (decrypt_members_spec z dk (infolist z)
              {| zip_out := []; files_decrypted := 0; files_copied := 0 |}
              (infolist_listed z))
    as (b' & -> & Hout & Hdec & Hcop).
  intros [= <-]. exists dk. repeat split; assumption.
Qed.

Lemma infolist_written_members (z : ZipFile) (dk : dict bytes)
      (infos : list ZipInfo) :
  infolist (written_members z dk infos) = map open_to_write infos.
Proof.
  unfold infolist, written_members. rewrite map_map. reflexivity.
Qed.

Lemma Forall2_map_same (A B C : Type) (R : B -> C -> Prop) (f : A -> B)
      (g : A -> C) (l : list A) :
  (forall x, In x l -> R (f x) (g x)) -> Forall2 R (map f l) (map g l).
Proof.
  induction l as [| x l IH]; intros H; cbn [map]; constructor.
  - apply H. now left.
  - apply IH. intros y Hy. apply H. now right.
Qed.

(* ------------------------------------------------------------------ *)
(** * The archive written by [decrypt_book] *)

Lemma matched_decrypted_keys (table : dict string) (user_key : bytes)
      (dk : dict bytes) (info : ZipInfo) :
  decrypt_keys table user_key [] = Ok dk ->
  dict_in (normalized info) dk = matched table info.
Proof.
  intros H. unfold matched.
  now rewrite (decrypt_keys_domain table user_key [] (normalized info) H).
Qed.

(** A member that is not matched is written with the payload that the
    source returns for its name. *)
Lemma written_unmatched (z : ZipFile) (dk : dict bytes) (info : ZipInfo)
      (payload : bytes) :
  dict_in (normalized info) dk = false ->
  zip_read z (filename info) = Ok payload ->
  written z dk info = payload.
Proof.
  unfold dict_in, written. intros Hout ->.
  destruct (dict_get dk (normalized info)); [discriminate | reflexivity].
Qed.

(** What the writer does to the metadata of a member. *)
Lemma open_to_write_metadata (zinfo : ZipInfo) :
  metadata_written zinfo (open_to_write zinfo).
Proof. unfold metadata_written, open_to_write. cbn. repeat split. Qed.

(** C6, as amended.  When [decrypt_book] returns, the archive it wrote has
    one member for each member of the source, in the same order and under
    the same name, with the time, the compression method, the extra field
    and the comment of the source; external attributes are kept unless the
    source has none, and then they are the permissions [0o600 << 16].
    When the names of the source are distinct, a member that is not matched
    in the content-key table has the payload of the member at the same
    place in the source. *)
Theorem decrypt_book_preserves_members (input_epub : ZipFile) (user_key : bytes)
        (content_keys_map : dict string) (b : book) :
  decrypt_book input_epub user_key content_keys_map = Ok b ->
  namelist (zip_out b) = namelist input_epub
  /\ Forall2 metadata_written (infolist input_epub) (infolist (zip_out b))
  /\ (distinct (namelist input_epub) = true ->
      Forall2
        (fun src dst =>
           matched content_keys_map (fst src) = false -> snd dst = snd src)
        input_epub (zip_out b)).
Proof.
  intros Hbook.
  destruct (decrypt_book_spec _ _ _ Hbook) as (dk & Hdk & -> & _).
  split; [| split].
  - unfold namelist. rewrite infolist_written_members, map_map. reflexivity.
  - rewrite infolist_written_members.
    rewrite <- (map_id (infolist input_epub)) at 1.
    apply Forall2_map_same. intros info _. apply open_to_write_metadata.
  - intros Hnames. unfold written_members, infolist. rewrite map_map.
    rewrite <- (map_id input_epub) at 1.
    apply Forall2_map_same. intros [info data] Hin. cbn [fst snd].
    intros Hunmatched. apply written_unmatched.
    + now rewrite (matched_decrypted_keys _ _ info Hdk).
    + now apply zip_read_distinct.
Qed.

Lemma decrypt_book_preserves_members_witness :
  namelist book_plain_private = namelist book_epub_bare
  /\ Forall2 metadata_written (infolist book_epub_bare)
       (infolist book_plain_private)
  /\ Forall2
       (fun src dst => matched book_keys (fst src) = false -> snd dst = snd src)
       book_epub_bare book_plain_private.
Proof.
  destruct (@decrypt_book_preserves_members book_epub_bare book_master_key
              book_keys
              {| zip_out := book_plain_private;
                 files_decrypted := 2; files_copied := 1 |})
    as (Hnames & Hmetadata & Hpayloads).
  - vm_compute. reflexivity.
  - split; [exact Hnames |]. split; [exact Hmetadata |].
    apply Hpayloads. reflexivity.
Defined.

(** C6, as stated, fails on the book from an archiver that records no
    attributes: the member [mimetype] is not matched, and it is written
    with other external attributes and other flag bits than it has in the
    source. *)
Lemma metadata_not_preserved_counterexample :
  decrypt_book book_epub_bare book_master_key book_keys
  = Ok {| zip_out := book_plain_private; files_decrypted := 2; files_copied := 1 |}
  /\ map (matched book_keys) (infolist book_epub_bare) = [false; true; true]
  /\ map external_attr (infolist book_epub_bare) = [0; 0; 0]%N
  /\ map external_attr (infolist book_plain_private)
     = [25165824; 25165824; 25165824]%N
  /\ map flag_bits (infolist book_epub_bare) = [8; 8; 8]%N
  /\ map flag_bits (infolist book_plain_private) = [0; 0; 0]%N
  /\ infolist book_plain_private <> infolist book_epub_bare.
Proof.
  split; [vm_compute; reflexivity |].
  repeat (split; [reflexivity |]). discriminate.
Qed.

(** Without distinct names the place is lost: [read] resolves a name to the
    last member that bears it, and the first of two members of one name is
    written with the payload of the second. *)
Example duplicate_names_read_last :
  decrypt_book
    [member "a" (list_byte_of_string "first");
     member "a" (list_byte_of_string "second")] book_master_key []
  = Ok {| zip_out := [member "a" (list_byte_of_string "second");
                      member "a" (list_byte_of_string "second")];
          files_decrypted := 0; files_copied := 2 |}.
Proof. vm_compute. reflexivity. Qed.

(* ------------------------------------------------------------------ *)
(** * The counters of [decrypt_book] *)

(** With distinct keys, the decrypted table is the table decrypted key by
    key. *)
Lemma decrypted_key_of_table (table : dict string) (user_key : bytes)
      (dk : dict bytes) (name : string) :
  distinct (dict_keys table) = true ->
  decrypt_keys table user_key [] = Ok dk ->
  dict_get dk name
  = match dict_get table name with
    | Some encrypted_key_b64 =>
        match decrypt_content_key encrypted_key_b64 user_key with
        | Ok key => Some key
        | Raise _ => None
        end
    | None => None
    end.
Proof.
  intros Hd Hdk.
  pose proof (decrypt_keys_values table user_key [] name Hd Hdk) as Hv.
  destruct (dict_get table name) as [b64 |]; [| exact Hv].
  destruct Hv as (key & -> & ->). reflexivity.
Qed.

Lemma member_fate_of_table (z : ZipFile) (user_key : bytes) (table : dict string)
      (dk : dict bytes) (info : ZipInfo) :
  distinct (dict_keys table) = true ->
  decrypt_keys table user_key [] = Ok dk ->
  member_fate z dk info = fate_of z user_key table info.
Proof.
  intros Hd Hdk. unfold member_fate, fate_of.
  pose proof (decrypt_keys_values table user_key [] (normalized info) Hd Hdk) as Hv.
  destruct (dict_get table (normalized info)) as [b64 |].
  - destruct Hv as (key & -> & ->). reflexivity.
  - now rewrite Hv.
Qed.

Lemma count_members_of_table (f : fate) (z : ZipFile) (user_key : bytes)
      (table : dict string) (dk : dict bytes) :
  distinct (dict_keys table) = true ->
  decrypt_keys table user_key [] = Ok dk ->
  count_members f z dk (infolist z) = count_fate f z user_key table.
Proof.
  intros Hd Hdk. unfold count_members, count_fate. f_equal.
  apply filter_ext. intros info.
  now rewrite (@member_fate_of_table z user_key table dk info Hd Hdk).
Qed.

(** Every member has exactly one fate. *)
Lemma fates_partition (A : Type) (f : A -> fate) (l : list A) :
  List.length (filter (fun a => fate_eqb (f a) Decrypted) l)
  + List.length (filter (fun a => fate_eqb (f a) Copied) l)
  + List.length (filter (fun a => fate_eqb (f a) Fallback) l)
  = List.length l.
Proof.
  induction l as [| a l IH]; [reflexivity |].
  cbn [filter]. destruct (f a); cbn; lia.
Qed.

(** The two counters in general: the members written back undecrypted are
    counted by neither. *)
Lemma decrypt_book_counters (z : ZipFile) (user_key : bytes) (table : dict string)
      (b : book) :
  distinct (dict_keys table) = true ->
  decrypt_book z user_key table = Ok b ->
  files_decrypted b = count_fate Decrypted z user_key table
  /\ files_copied b = count_fate Copied z user_key table
  /\ files_decrypted b + files_copied b + count_fate Fallback z user_key table
     = List.length z.
Proof.
  intros Hd Hbook.
  destruct (decrypt_book_spec _ _ _ Hbook) as (dk & Hdk & _ & Hdec & Hcop).
  rewrite (@count_members_of_table Decrypted z _ _ _ Hd Hdk) in Hdec.
  rewrite (@count_members_of_table Copied z _ _ _ Hd Hdk) in Hcop.
  repeat split; try assumption.
  rewrite Hdec, Hcop. unfold count_fate.
  rewrite fates_partition. unfold infolist. apply length_map.
Qed.

(** C5.  On the archive whose second chapter has lost a byte, the chapter
    is matched, its decryption raises, and it is written back as it is: the
    branch that does so moves neither counter.  [decrypt_book] returns with
    one member decrypted and one copied, its only two counters, for three
    members written, so the total of its summary is 2 for 3 members. *)
Theorem decrypt_book_summary_skips_fallback :
  exists b,
    decrypt_book book_epub_damaged book_master_key book_keys = Ok b
    /\ files_decrypted b = 1
    /\ files_copied b = 1
    /\ count_fate Fallback book_epub_damaged book_master_key book_keys = 1
    /\ List.length (zip_out b) = 3
    /\ files_decrypted b + files_copied b <> List.length book_epub_damaged.
Proof.
  eexists. split; [vm_compute; reflexivity |].
  repeat split. discriminate.
Qed.

(* ------------------------------------------------------------------ *)
(** * A key of the table that is corrupted *)

Lemma dict_keys_set (V : Type) (d : dict V) (k : string) (v : V) :
  dict_in k d = true -> dict_keys (dict_set d k v) = dict_keys d.
Proof.
  unfold dict_in, dict_keys.
  induction d as [| [k0 v0] d IH]; cbn [dict_get dict_set]; [discriminate |].
  destruct (String.eqb k k0); [reflexivity |].
  intros H. cbn [map fst]. now rewrite IH.
Qed.

Lemma In_dict_set (V : Type) (d : dict V) (k : string) (v : V) (kv : string * V) :
  In kv (dict_set d k v) -> In kv d \/ snd kv = v.
Proof.
  induction d as [| [k0 v0] d IH]; cbn [dict_set].
  - intros [<- | []]. now right.
  - destruct (String.eqb k k0).
    + intros [<- | H]; [now right | left; now right].
    + intros [<- | H]; [left; now left |].
      destruct (IH H) as [H' | H']; [left; now right | now right].
Qed.

(** The guarded path.  Let one key of the table be replaced by a text that
    still decodes and decrypts, to whatever content key.  If [decrypt_book]
    returns with the table intact, it returns with the changed table too;
    every member that is not looked up under that key is written as with
    the table intact, and the counter of copied members is the same. *)
Lemma corrupted_key_isolated (input_epub : ZipFile) (user_key : bytes)
      (content_keys_map : dict string) (name corrupted : string)
      (other_key : bytes) (b : book) :
  distinct (dict_keys content_keys_map) = true ->
  dict_in name content_keys_map = true ->
  decrypt_content_key corrupted user_key = Ok other_key ->
  decrypt_book input_epub user_key content_keys_map = Ok b ->
  exists b',
    decrypt_book input_epub user_key (dict_set content_keys_map name corrupted)
    = Ok b'
    /\ Forall2
         (fun m m' =>
            fst m' = fst m
            /\ (normalized (fst m) <> name -> snd m' = snd m))
         (zip_out b) (zip_out b')
    /\ files_copied b' = files_copied b.
Proof.
  intros Hd Hin Hcorrupted Hbook.
  set (table' := dict_set content_keys_map name corrupted).
  assert (Hd' : distinct (dict_keys table') = true).
  { unfold table'. now rewrite dict_keys_set. }
  assert (Hok' : is_ok (decrypt_book input_epub user_key table') = true).
  { rewrite decrypt_book_ok. apply forallb_forall. intros kv Hkv.
    destruct (In_dict_set _ _ _ _ Hkv) as [Hold | ->].
    - pose proof (decrypt_book_ok input_epub user_key content_keys_map) as Hall.
      rewrite Hbook in Hall. symmetry in Hall.
      rewrite forallb_forall in Hall. now apply Hall.
    - now rewrite Hcorrupted. }
  destruct (decrypt_book input_epub user_key table') as [b' | e] eqn:Hbook';
    [| discriminate].
  exists b'. split; [reflexivity |].
  destruct (decrypt_book_spec _ _ _ Hbook) as (dk & Hdk & Hout & Hdec & Hcop).
  destruct (decrypt_book_spec _ _ _ Hbook') as (dk' & Hdk' & Hout' & Hdec' & Hcop').
  assert (Hget' : forall n,
             dict_get dk' n
             = if String.eqb n name then Some other_key else dict_get dk n).
  { intros n.
    rewrite (decrypted_key_of_table table' user_key n Hd' Hdk').
    rewrite (decrypted_key_of_table content_keys_map user_key n Hd Hdk).
    unfold table'. rewrite dict_get_set.
    destruct (String.eqb n name); [now rewrite Hcorrupted | reflexivity]. }
  assert (Hget : exists key, dict_get dk name = Some key).
  { pose proof (decrypt_keys_values content_keys_map user_key [] name Hd Hdk) as Hv.
    unfold dict_in in Hin.
    destruct (dict_get content_keys_map name); [| discriminate].
    destruct Hv as (key & _ & Hkey). now exists key. }
  split.
  - rewrite Hout, Hout'. unfold written_members.
    apply Forall2_map_same. intros info Hinfo. cbn [fst snd].
    split; [reflexivity |].
    change (normalized (open_to_write info)) with (normalized info).
    intros Hne. unfold written. rewrite Hget'.
    destruct (String.eqb_spec (normalized info) name);
      [contradiction | reflexivity].
  - rewrite Hcop, Hcop'. unfold count_members. f_equal.
    apply filter_ext. intros info. unfold member_fate. rewrite Hget'.
    destruct (String.eqb_spec (normalized info) name) as [Heq | Hne];
      [| reflexivity].
    rewrite Heq. destruct Hget as [key ->].
    now destruct (bind _ _), (bind _ _).
Qed.

(** The book with the second key emptied: the first chapter is decrypted,
    the second is written as it is. *)
Example decrypt_book_emptied_key :
  decrypt_book book_epub book_master_key book_keys_emptied
  = Ok {| zip_out := book_half_plain; files_decrypted := 1; files_copied := 1 |}.
Proof. vm_compute. reflexivity. Qed.

(** With the table intact every chapter is decrypted. *)
Example decrypt_book_intact :
  decrypt_book book_epub book_master_key book_keys
  = Ok {| zip_out := book_plain; files_decrypted := 2; files_copied := 1 |}.
Proof. vm_compute. reflexivity. Qed.

(** A payload that cannot be decrypted is written back as it is, and the
    loop goes on. *)
Example decrypt_book_damaged_payload :
  decrypt_book book_epub_damaged book_master_key book_keys
  = Ok {| zip_out :=
            [member "mimetype" (list_byte_of_string "application/epub+zip");
             member "OEBPS/chapter1.html"
               (list_byte_of_string "<html><body>One</body></html>");
             member "OEBPS/chapter2.html" (removelast chapter2_encrypted)];
          files_decrypted := 1; files_copied := 1 |}.
Proof. vm_compute. reflexivity. Qed.

(** C2.  With the base64 text of the second key truncated, the content
    key of the second chapter fails to decode in the first loop of
    [decrypt_book], which is outside the [try] of the member loop: the whole
    run raises [binascii.Error] and nothing is written, although the key of
    the first chapter is intact and the book decrypts with the table
    intact. *)
Theorem decrypt_book_truncated_key_aborts :
  decrypt_book book_epub book_master_key book_keys
  = Ok {| zip_out := book_plain; files_decrypted := 2; files_copied := 1 |}
  /\ decrypt_content_key "lyXc2GeLNWc+3bn/sqOLOw==" book_master_key
     = Ok (unhex "000102030405060708090a0b0c0d0e0f")
  /\ decrypt_content_key "5wIyaQcAo4gO3o26UEQ1pg" book_master_key
     = Raise BinasciiError
  /\ decrypt_book book_epub book_master_key book_keys_truncated
     = Raise BinasciiError.
Proof. vm_compute. repeat split. Qed.

(** C7.  With the second key cut to 15 bytes, the decryption of the content
    key fails on the block length and [decrypt_book] raises [ValueError]:
    the transcoding as a whole is aborted by the failure of one member's
    chain. *)
Theorem decrypt_book_short_key_aborts :
  Base64.b64decode "5wIyaQcAo4gO3o26UEQ1"
  = Ok (unhex "e70232690700a3880ede8dba504435")
  /\ decrypt_content_key "5wIyaQcAo4gO3o26UEQ1" book_master_key = Raise ValueError
  /\ decrypt_book book_epub book_master_key book_keys_short = Raise ValueError.
Proof. vm_compute. repeat split. Qed.

(* ------------------------------------------------------------------ *)
(** * The search for the hash key *)

(** A candidate is accepted exactly when the first file decrypts under it
    to a buffer that carries a marker in its window. *)
Lemma accepted_iff (input_epub : ZipFile) (first_element first_key_b64 : string)
      (rest : dict string) (user_key : bytes) :
  accepted input_epub ((first_element, first_key_b64) :: rest) user_key = true
  <-> exists decrypted,
        decrypt_first input_epub first_element first_key_b64 user_key = Ok decrypted
        /\ (occurs_within 100 XML_DECLARATION decrypted
            \/ occurs_within 100 HTML_TAG decrypted
            \/ occurs_within 10 JPEG_SOI decrypted).
Proof.
  cbn [accepted].
  destruct (decrypt_first input_epub first_element first_key_b64 user_key)
    as [decrypted | e].
  - split.
    + intros H. exists decrypted. split; [reflexivity |].
      unfold XML_DECLARATION, HTML_TAG, JPEG_SOI.
      unfold valid_content in H.
      change 100%Z with (Z.of_nat 100) in H. change 10%Z with (Z.of_nat 10) in H.
      rewrite !orb_true_iff, !bytes_in_slice_to in H. tauto.
    + intros (d & [= <-] & H).
      unfold XML_DECLARATION, HTML_TAG, JPEG_SOI in H.
      unfold valid_content.
      change 100%Z with (Z.of_nat 100). change 10%Z with (Z.of_nat 10).
      rewrite !orb_true_iff, !bytes_in_slice_to. tauto.
  - split; [discriminate | intros (d & Hd & _); discriminate].
Qed.

(** One turn of the loop.  A candidate that is not accepted is passed over;
    so is an accepted one for which [decrypt_book] raises. *)
Lemma try_hash_keys_step (hash_key : string) (hash_keys : list string)
      (serial user_id : string) (content_keys : dict string)
      (input_epub : ZipFile) (user_key : bytes) :
  content_keys <> [] ->
  derive_user_key serial user_id hash_key = Ok user_key ->
  try_hash_keys (hash_key :: hash_keys) serial user_id content_keys input_epub
  = if accepted input_epub content_keys user_key
    then match decrypt_book input_epub user_key content_keys with
         | Ok b => Success hash_key user_key b
         | Raise _ => try_hash_keys hash_keys serial user_id content_keys input_epub
         end
    else try_hash_keys hash_keys serial user_id content_keys input_epub.
Proof.
  intros Hne Hkey. cbn [try_hash_keys]. rewrite Hkey.
  destruct content_keys as [| [first_element first_key_b64] rest];
    [contradiction |].
  cbn [dict_keys map fst next_iter dict_get accepted].
  rewrite String.eqb_refl. unfold try_hash_key.
  destruct (decrypt_first input_epub first_element first_key_b64 user_key)
    as [decrypted | e]; cbn [bind]; [| reflexivity].
  destruct (valid_content decrypted); [| reflexivity].
  now destruct (decrypt_book input_epub user_key _).
Qed.

(** X17.  The loop over ASCII inputs and a table that is not empty gives up
    exactly when no candidate is both accepted and transcoded without an
    exception. *)
Lemma try_hash_keys_gives_up (hash_keys : list string) (serial user_id : string)
      (content_keys : dict string) (input_epub : ZipFile) :
  content_keys <> [] ->
  is_ascii serial = true -> is_ascii user_id = true ->
  forallb is_ascii hash_keys = true ->
  (try_hash_keys hash_keys serial user_id content_keys input_epub = NoKnownHashKey
   <-> forall hash_key user_key,
         In hash_key hash_keys ->
         derive_user_key serial user_id hash_key = Ok user_key ->
         accepted input_epub content_keys user_key
         && is_ok (decrypt_book input_epub user_key content_keys) = false).
Proof.
  intros Hne Hserial Huser.
  induction hash_keys as [| hash_key hash_keys IH]; intros Hkeys.
  - split; [intros _ ? ? [] | reflexivity].
  - cbn [forallb] in Hkeys. apply andb_true_iff in Hkeys as [Hkey Hkeys].
    pose proof (derive_user_key_cases serial user_id hash_key) as Hderive.
    rewrite Hkey, Hserial, Huser in Hderive. cbn [andb] in Hderive.
    cbv zeta in Hderive.
    set (user_key := skipn 16 _) in Hderive.
    rewrite (@try_hash_keys_step hash_key hash_keys serial user_id content_keys
               input_epub user_key Hne Hderive).
    specialize (IH Hkeys). split.
    + intros Hrun hk uk [<- | Hin] Hd.
      * rewrite Hderive in Hd. injection Hd as <-.
        destruct (accepted input_epub content_keys user_key); [| reflexivity].
        now destruct (decrypt_book input_epub user_key content_keys).
      * destruct (accepted input_epub content_keys user_key);
          [destruct (decrypt_book input_epub user_key content_keys);
             [discriminate |] |];
          now apply (proj1 IH Hrun hk uk).
    + intros Hall.
      pose proof (Hall hash_key user_key (or_introl eq_refl) Hderive) as Hthis.
      assert (Hrest : try_hash_keys hash_keys serial user_id content_keys input_epub
                      = NoKnownHashKey).
      { apply IH. intros hk uk Hin. apply Hall. now right. }
      destruct (accepted input_epub content_keys user_key); [| exact Hrest].
      destruct (decrypt_book input_epub user_key content_keys);
        [discriminate | exact Hrest].
Qed.

(** When the loop succeeds, it is with a candidate that is accepted and for
    which [decrypt_book] returned, and every hash key tried before it was
    passed over. *)
Lemma try_hash_keys_success (hash_keys : list string) (serial user_id : string)
      (content_keys : dict string) (input_epub : ZipFile)
      (hash_key : string) (user_key : bytes) (b : book) :
  try_hash_keys hash_keys serial user_id content_keys input_epub
  = Success hash_key user_key b ->
  exists before after,
    hash_keys = before ++ hash_key :: after
    /\ derive_user_key serial user_id hash_key = Ok user_key
    /\ accepted input_epub content_keys user_key = true
    /\ decrypt_book input_epub user_key content_keys = Ok b
    /\ try_hash_keys before serial user_id content_keys input_epub = NoKnownHashKey.
Proof.
  induction hash_keys as [| hk hash_keys IH]; [discriminate |].
  cbn [try_hash_keys].
  destruct (derive_user_key serial user_id hk) as [uk | e] eqn:Hderive;
    [| discriminate].
  destruct content_keys as [| [first_element first_key_b64] rest];
    [discriminate |].
  cbn [dict_keys map fst next_iter dict_get]. rewrite String.eqb_refl.
  unfold try_hash_key.
  destruct (decrypt_first input_epub first_element first_key_b64 uk)
    as [decrypted | e] eqn:Hfirst; cbn [bind].
  - destruct (valid_content decrypted) eqn:Hvalid.
    + destruct (decrypt_book input_epub uk _) as [b0 | e] eqn:Hbook; cbn [bind].
      * intros [= <- <- <-]. exists [], hash_keys.
        repeat split; try assumption.
        cbn [accepted]. now rewrite Hfirst.
      * intros H. destruct (IH H) as (before & after & -> & Hd & Ha & Hb & Hn).
        exists (hk :: before), after. repeat split; try assumption.
        cbn [try_hash_keys]. rewrite Hderive.
        cbn [dict_keys map fst next_iter dict_get]. rewrite String.eqb_refl.
        unfold try_hash_key. rewrite Hfirst. cbn [bind].
        rewrite Hvalid, Hbook. exact Hn.
    + intros H. destruct (IH H) as (before & after & -> & Hd & Ha & Hb & Hn).
      exists (hk :: before), after. repeat split; try assumption.
      cbn [try_hash_keys]. rewrite Hderive.
      cbn [dict_keys map fst next_iter dict_get]. rewrite String.eqb_refl.
      unfold try_hash_key. rewrite Hfirst. cbn [bind].
      rewrite Hvalid. exact Hn.
  - intros H. destruct (IH H) as (before & after & -> & Hd & Ha & Hb & Hn).
    exists (hk :: before), after. repeat split; try assumption.
    cbn [try_hash_keys]. rewrite Hderive.
    cbn [dict_keys map fst next_iter dict_get]. rewrite String.eqb_refl.
    unfold try_hash_key. rewrite Hfirst. exact Hn.
Qed.

(** C4.  With the table whose second key is truncated, the candidate derived
    from [NoCanLook] passes the test, [decrypt_book] then raises inside the
    [try] block, the exception is taken for a failed candidate, and [main]
    ends on "Could not decrypt with any known hash key". *)
Theorem main_gives_up_after_accepted_key :
  derive_user_key book_serial book_user_id "NoCanLook" = Ok book_master_key
  /\ accepted book_epub book_keys_truncated book_master_key = true
  /\ decrypt_book book_epub book_master_key book_keys_truncated = Raise BinasciiError
  /\ main (Some book_version_file) (book_db book_keys_truncated) book_volume_id
       book_epub
     = NoKnownHashKey.
Proof. vm_compute. repeat split. Qed.

(* ------------------------------------------------------------------ *)
(** * The length of what the cipher returns *)

Lemma length_xor_bytes (a b : list N) :
  List.length (AES.xor_bytes a b) = Nat.min (List.length a) (List.length b).
Proof.
  revert b. induction a as [| x a IH]; intros [| y b]; cbn; try reflexivity.
  now rewrite IH.
Qed.

Lemma expand_shape (fuel i Nk : nat) (rw : list (list N)) :
  exists more,
    AES.expand fuel i Nk rw = rev rw ++ more /\ List.length more = fuel.
Proof.
  revert i rw. induction fuel as [| fuel IH]; intros i rw.
  - exists []. cbn. now rewrite app_nil_r.
  - cbn [AES.expand]. cbv zeta.
    destruct (IH (S i) (AES.xor_bytes (nth (Nk - 1) rw [])
                (if i mod Nk =? 0
                 then AES.xor_bytes (AES.sub_word (AES.rot_word (nth 0 rw [])))
                        (AES.rcon (i / Nk))
                 else if (6 <? Nk) && (i mod Nk =? 4)
                      then AES.sub_word (nth 0 rw [])
                      else nth 0 rw []) :: rw)) as (more & -> & Hlen).
    cbn [rev]. rewrite <- app_assoc. eexists. split; [reflexivity |].
    cbn. now rewrite Hlen.
Qed.

Tactic Notation "key_of_length" integer(n) hyp(key) hyp(H) :=
  do n (destruct key as [| ? key]; [discriminate H |]);
  destruct key; [| discriminate H].

Ltac first_round_keys :=
  unfold AES.key_expansion; cbv zeta;
  match goal with
  | |- context [AES.expand ?f ?i ?n ?rw] =>
      let more := fresh "more" in
      let Hmore := fresh "Hmore" in
      destruct (expand_shape f i n rw) as (more & -> & Hmore);
      simpl in Hmore;
      do 4 (destruct more as [| ? more]; [discriminate Hmore |])
  end;
  cbn [AES.group4 rev app map List.concat];
  do 3 eexists; split; reflexivity.

(** The first round key is the first 16 bytes of the key, and there is at
    least one more. *)
Lemma key_expansion_shape (key : list N) :
  List.length key = 16 \/ List.length key = 24 \/ List.length key = 32 ->
  exists k0 k1 rest,
    AES.key_expansion key = k0 :: k1 :: rest /\ List.length k0 = 16.
Proof.
  intros [H | [H | H]].
  - key_of_length 16 key H. first_round_keys.
  - key_of_length 24 key H. first_round_keys.
  - key_of_length 32 key H. first_round_keys.
Qed.

Lemma rev_two_or_more (A : Type) (k0 k1 d : A) (rest : list A) :
  exists last_key rks',
    rev (k0 :: k1 :: rest) = last_key :: rks' /\ last rks' d = k0.
Proof.
  cbn [rev]. destruct (rev rest ++ [k1]) as [| x xs] eqn:E.
  - destruct (rev rest); discriminate E.
  - exists x, (xs ++ [k0]). split; [reflexivity | apply last_last].
Qed.

Lemma length_inv_cipher (rks' : list (list N)) (last_key block : list N) :
  List.length (last rks' []) = 16 ->
  List.length (AES.inv_cipher (last_key :: rks') block) = 16.
Proof.
  intros H. cbn [AES.inv_cipher]. cbv zeta.
  rewrite length_xor_bytes, H.
  unfold AES.inv_sub_bytes, AES.inv_shift_rows. now rewrite !length_map.
Qed.

Lemma length_decrypt_blocks (rks' : list (list N)) (last_key : list N)
      (k fuel : nat) (data : list N) :
  List.length (last rks' []) = 16 ->
  List.length data = 16 * k -> k <= fuel ->
  List.length (AES.decrypt_blocks fuel (last_key :: rks') data) = 16 * k.
Proof.
  intros Hkey. revert fuel data.
  induction k as [| k IH]; intros fuel data Hlen Hfuel.
  - destruct data; [| discriminate Hlen]. now destruct fuel.
  - destruct fuel as [| fuel]; [lia |].
    destruct data as [| x data]; [discriminate Hlen |].
    cbn [AES.decrypt_blocks].
    rewrite length_app, (length_inv_cipher _ _ _ Hkey).
    rewrite (IH fuel); [lia | | lia].
    rewrite length_skipn, Hlen. lia.
Qed.

(** A cipher made by [AES.new] decrypts to as many bytes as it is given. *)
Lemma length_AES_decrypt (key data out : bytes) (c : AES.cipher) :
  AES.new key = Ok c -> AES.decrypt c data = Ok out ->
  List.length out = List.length data.
Proof.
  unfold AES.new, AES.decrypt.
  destruct ((List.length key =? 16) || (List.length key =? 24)
            || (List.length key =? 32)) eqn:Hk; [| discriminate].
  intros [= <-]. cbn [AES.round_keys].
  destruct (Nat.eqb_spec (List.length data mod 16) 0) as [Hmod | _];
    [| discriminate].
  intros [= <-]. rewrite length_map.
  destruct (key_expansion_shape (map Byte.to_N key)) as (k0 & k1 & rest & -> & Hk0).
  { rewrite length_map.
    apply orb_true_iff in Hk as [Hk | Hk];
      [apply orb_true_iff in Hk as [Hk | Hk] |];
      apply Nat.eqb_eq in Hk; auto. }
  destruct (rev_two_or_more k0 k1 [] rest) as (last_key & rks' & -> & Hlast).
  pose proof (Nat.div_mod_eq (List.length data) 16) as Hdiv.
  rewrite (length_decrypt_blocks rks' last_key (k := List.length data / 16));
    rewrite ?length_map; try lia.
  rewrite Hlast. exact Hk0.
Qed.

(* ------------------------------------------------------------------ *)
(** * More on the device descriptor *)

(** The first field of a split: it holds no separator, and the text is the
    field alone or the field, a separator and the rest. *)
Lemma str_split_first (sep : ascii) (s : string) :
  exists field fields,
    str_split sep s = field :: fields
    /\ ~ In sep (chars field)
    /\ (s = field \/ exists rest, s = (field ++ String sep rest)%string).
Proof.
  induction s as [| c s (field & fields & Hsplit & Hfree & Hshape)].
  - exists EmptyString, []. cbn. split; [reflexivity |]. split; [tauto | now left].
  - cbn [str_split]. destruct (Ascii.eqb_spec c sep) as [-> | Hc].
    + exists EmptyString, (str_split sep s).
      split; [reflexivity |]. split; [cbn; tauto |].
      right. now exists s.
    + rewrite Hsplit. exists (String c field), fields.
      split; [reflexivity |]. split.
      * unfold chars in *. cbn. intros [Heq | Hin]; [now apply Hc | now apply Hfree].
      * destruct Hshape as [-> | [rest ->]]; [now left |].
        right. now exists rest.
Qed.

(** X1.  For every text read from the descriptor, [get_device_serial]
    returns a serial.  The serial holds no comma, and the stripped text is
    the serial alone or the serial, a comma and the rest. *)
Theorem get_device_serial_is_first_field (text : string) :
  exists serial,
    get_device_serial (Some text) = Ok serial
    /\ ~ In ","%char (chars serial)
    /\ (str_strip text = serial
        \/ exists rest, str_strip text = (serial ++ String "," rest)%string).
Proof.
  rewrite get_device_serial_first_field.
  destruct (str_split_first "," (str_strip text))
    as (field & fields & -> & Hfree & Hshape).
  exists field. cbn [hd]. repeat split; assumption.
Qed.

Lemma lstrip_chars_app (a b : list ascii) :
  lstrip_chars (a ++ b)
  = match lstrip_chars a with
    | [] => lstrip_chars b
    | c :: l => (c :: l) ++ b
    end.
Proof.
  induction a as [| c a IH]; [reflexivity |].
  cbn [app lstrip_chars]. now destruct (isspace c).
Qed.

Lemma lstrip_chars_blank (l : list ascii) : blank l = true -> lstrip_chars l = [].
Proof.
  unfold blank. induction l as [| c l IH]; [reflexivity |].
  cbn. destruct (isspace c); [exact IH | discriminate].
Qed.

Lemma blank_rev (l : list ascii) : blank (rev l) = blank l.
Proof.
  unfold blank. induction l as [| c l IH]; [reflexivity |].
  cbn [rev forallb]. rewrite forallb_app, IH. cbn. now rewrite andb_true_r, andb_comm.
Qed.

(** Stripping ignores white space on both sides. *)
Lemma str_strip_blanks (before after : list ascii) (text : string) :
  blank before = true -> blank after = true ->
  str_strip (str before ++ text ++ str after) = str_strip text.
Proof.
  intros Hb Ha. unfold str_strip. f_equal. f_equal.
  rewrite !chars_append. unfold chars at 1 3, str.
  rewrite !list_ascii_of_string_of_list_ascii.
  rewrite lstrip_chars_app, (lstrip_chars_blank _ Hb).
  rewrite lstrip_chars_app.
  destruct (lstrip_chars (chars text)) as [| c l].
  - now rewrite (lstrip_chars_blank _ Ha).
  - rewrite rev_app_distr, lstrip_chars_app.
    rewrite lstrip_chars_blank; [reflexivity |].
    now rewrite blank_rev.
Qed.

(** X2.  White space before and after the content of the descriptor, such
    as the end of its line, does not change the serial. *)
Theorem get_device_serial_ignores_blanks (before after : list ascii)
        (text : string) :
  blank before = true -> blank after = true ->
  get_device_serial (Some (str before ++ text ++ str after)%string)
  = get_device_serial (Some text).
Proof.
  intros Hb Ha. rewrite !get_device_serial_first_field.
  now rewrite str_strip_blanks.
Qed.

Lemma get_device_serial_ignores_blanks_witness :
  get_device_serial (Some padded_version_file)
  = get_device_serial (Some "N905B12345,4.38.21908"%string).
Proof.
  apply (@get_device_serial_ignores_blanks [" "%char] ["010"%char]
           "N905B12345,4.38.21908"); reflexivity.
Defined.

(* ------------------------------------------------------------------ *)
(** * More on the padding *)

Lemma pkcs7_unpad_strict_prefix_aux (data : bytes) :
  match pkcs7_unpad data with
  | Ok out => exists removed, data = out ++ removed /\ removed <> []
  | Raise e => data = [] /\ e = IndexError
  end.
Proof.
  destruct data as [| b data]; [now split |].
  rewrite pkcs7_unpad_cases by discriminate.
  destruct (Nat.eqb_spec (last_byte (b :: data)) 0) as [_ | Hnz].
  - exists (b :: data). split; [reflexivity | discriminate].
  - unfold remove_last.
    exists (skipn (List.length (b :: data) - last_byte (b :: data)) (b :: data)).
    split; [now rewrite firstn_skipn |].
    intros Hnil. apply (f_equal (@List.length byte)) in Hnil.
    rewrite length_skipn in Hnil. cbn [List.length] in *. lia.
Qed.

(** X3.  [pkcs7_unpad] returns exactly on the buffers that are not empty,
    and raises [IndexError] on the empty one; what it returns is the buffer
    without a last part that is not empty, so it is strictly shorter. *)
Theorem pkcs7_unpad_strict_prefix (data : bytes) :
  match pkcs7_unpad data with
  | Ok out =>
      exists removed,
        data = out ++ removed /\ removed <> []
        /\ List.length out < List.length data
  | Raise e => data = [] /\ e = IndexError
  end.
Proof.
  pose proof (pkcs7_unpad_strict_prefix_aux data) as H.
  destruct (pkcs7_unpad data) as [out | e]; [| exact H].
  destruct H as (removed & -> & Hne). exists removed.
  repeat split; try assumption.
  rewrite length_app. destruct removed; [contradiction | cbn; lia].
Qed.

Lemma last_byte_app (data padding : bytes) :
  padding <> [] -> last_byte (data ++ padding) = last_byte padding.
Proof.
  intros Hne. unfold last_byte. do 2 f_equal.
  rewrite (app_removelast_last x00 Hne), app_assoc. now rewrite !last_last.
Qed.

(** X4.  A buffer that ends in a padding whose last byte is the length of
    the padding is returned without it, whatever the other bytes of the
    padding are. *)
Theorem pkcs7_unpad_strips_padding (data padding : bytes) :
  padding <> [] ->
  last_byte padding = List.length padding ->
  pkcs7_unpad (data ++ padding) = Ok data.
Proof.
  intros Hne Hlast.
  rewrite pkcs7_unpad_cases by (destruct data; [assumption | discriminate]).
  rewrite last_byte_app, Hlast by assumption.
  destruct (Nat.eqb_spec (List.length padding) 0) as [Hz | _].
  - destruct padding; [contradiction | discriminate Hz].
  - unfold remove_last. rewrite length_app.
    replace (List.length data + List.length padding - List.length padding)
      with (List.length data + 0) by lia.
    rewrite firstn_app_2. cbn [firstn]. now rewrite app_nil_r.
Qed.

Lemma pkcs7_unpad_strips_padding_witness :
  pkcs7_unpad (list_byte_of_string "<html></html>" ++ [x00; xff; x03])
  = Ok (list_byte_of_string "<html></html>").
Proof.
  apply (@pkcs7_unpad_strips_padding (list_byte_of_string "<html></html>")
           [x00; xff; x03]); [discriminate | reflexivity].
Defined.

(* ------------------------------------------------------------------ *)
(** * More on the key derivation *)

(** X5.  [derive_user_key] raises exactly when one of its three arguments
    holds a character outside ASCII, and then [UnicodeEncodeError];
    otherwise the key is the last 16 bytes of the second digest: decoding
    the second half of the hexadecimal text never fails. *)
Theorem derive_user_key_raises_iff (serial user_id hash_key : string) :
  match derive_user_key serial user_id hash_key with
  | Ok key =>
      is_ascii hash_key && is_ascii serial && is_ascii user_id = true
      /\ exists device_id,
           encode_ascii (SHA256.hexdigest
                           (map byte_of_ascii (chars (hash_key ++ serial)%string)))
           = Ok device_id
           /\ key = skipn 16 (SHA256.sha256
                                (device_id ++ map byte_of_ascii (chars user_id)))
  | Raise e =>
      is_ascii hash_key && is_ascii serial && is_ascii user_id = false
      /\ e = UnicodeEncodeError
  end.
Proof.
  rewrite derive_user_key_cases.
  destruct (is_ascii hash_key && is_ascii serial && is_ascii user_id);
    [| now split].
  cbv zeta. split; [reflexivity |].
  eexists. split.
  - unfold SHA256.hexdigest. now rewrite encode_ascii_spec, is_ascii_hexlify.
  - now rewrite chars_append, map_app.
Qed.

(* ------------------------------------------------------------------ *)
(** * The content keys of a volume *)

Lemma existsb_dict_keys_set (V : Type) (d : dict V) (k x : string) (v : V) :
  existsb (String.eqb x) (dict_keys (dict_set d k v))
  = existsb (String.eqb x) (dict_keys d) || String.eqb x k.
Proof.
  unfold dict_keys.
  induction d as [| [k0 v0] d IH]; cbn [dict_set map fst existsb].
  - now rewrite orb_false_r.
  - destruct (String.eqb_spec k k0) as [-> | Hk]; cbn [map fst existsb].
    + now destruct (String.eqb x k0), (existsb (String.eqb x) (map fst d)).
    + rewrite IH. now rewrite orb_assoc.
Qed.

Lemma distinct_dict_set (V : Type) (d : dict V) (k : string) (v : V) :
  distinct (dict_keys d) = true -> distinct (dict_keys (dict_set d k v)) = true.
Proof.
  induction d as [| [k0 v0] d IH]; [reflexivity |].
  cbn [dict_set]. destruct (String.eqb_spec k k0) as [-> | Hk]; [trivial |].
  unfold dict_keys in *. cbn [map fst distinct].
  rewrite !andb_true_iff, !negb_true_iff. intros [Hfresh Hd].
  split; [| now apply IH].
  change (map fst (dict_set d k v)) with (dict_keys (dict_set d k v)).
  rewrite existsb_dict_keys_set. unfold dict_keys. rewrite Hfresh.
  destruct (String.eqb_spec k0 k) as [-> | _]; [contradiction | reflexivity].
Qed.

Lemma find_app' (A : Type) (p : A -> bool) (l l' : list A) :
  find p (l ++ l')
  = match find p l with
    | Some x => Some x
    | None => find p l'
    end.
Proof.
  induction l as [| x l IH]; [reflexivity |].
  cbn [app find]. now destruct (p x).
Qed.

(** The loop that builds the dictionary of [get_content_keys], from any
    dictionary on. *)
Lemma content_keys_fold (rows : list (string * (string * string)))
      (d : dict string) (element_id : string) :
  let step := fun (d : dict string) (row : string * (string * string)) =>
                dict_set d (fst (snd row)) (snd (snd row)) in
  dict_get (fold_left step rows d) element_id
  = match find (fun row => String.eqb (fst (snd row)) element_id) (rev rows) with
    | Some row => Some (snd (snd row))
    | None => dict_get d element_id
    end.
Proof.
  cbv zeta. revert d. induction rows as [| row rows IH]; intros d; [reflexivity |].
  cbn [fold_left rev]. rewrite IH, find_app'.
  destruct (find _ (rev rows)); [reflexivity |].
  cbn [find]. rewrite dict_get_set, (String.eqb_sym element_id).
  now destruct (String.eqb (fst (snd row)) element_id).
Qed.

Lemma content_keys_fold_distinct (rows : list (string * (string * string)))
      (d : dict string) :
  distinct (dict_keys d) = true ->
  distinct
    (dict_keys
       (fold_left (fun d row => dict_set d (fst (snd row)) (snd (snd row))) rows d))
  = true.
Proof.
  revert d. induction rows as [| row rows IH]; intros d Hd; [exact Hd |].
  cbn [fold_left]. apply IH. now apply distinct_dict_set.
Qed.

Lemma find_filter (A : Type) (p q : A -> bool) (l : list A) :
  find p (filter q l) = find (fun x => q x && p x) l.
Proof.
  induction l as [| x l IH]; [reflexivity |].
  cbn [filter find]. destruct (q x); cbn [find andb]; now rewrite IH.
Qed.

Lemma filter_rev' (A : Type) (q : A -> bool) (l : list A) :
  filter q (rev l) = rev (filter q l).
Proof.
  induction l as [| x l IH]; [reflexivity |].
  cbn [rev filter]. rewrite filter_app, IH. cbn [filter].
  destruct (q x); cbn [rev]; [reflexivity | now rewrite app_nil_r].
Qed.

(** X6.  The dictionary that [get_content_keys] returns holds, for each
    element, the key of the last row of the volume for that element: a
    later row replaces an earlier one, and the rows of other volumes are not
    seen. *)
Theorem get_content_keys_last_row (db : KoboReader) (volume_id element_id : string) :
  dict_get (get_content_keys db volume_id) element_id
  = option_map (fun row => snd (snd row))
      (find (row_of volume_id element_id) (rev (content_keys db))).
Proof.
  unfold get_content_keys.
  rewrite (content_keys_fold _ [] element_id).
  rewrite <- filter_rev', find_filter.
  unfold row_of.
  now destruct (find _ (rev (content_keys db))).
Qed.

(** X7.  The dictionary that [get_content_keys] returns has distinct
    keys, and an element is one of them exactly when the volume has a row
    for it. *)
Theorem get_content_keys_domain (db : KoboReader) (volume_id : string) :
  distinct (dict_keys (get_content_keys db volume_id)) = true
  /\ forall element_id,
       dict_in element_id (get_content_keys db volume_id)
       = existsb (row_of volume_id element_id) (content_keys db).
Proof.
  split.
  - unfold get_content_keys. now apply content_keys_fold_distinct.
  - intros element_id. unfold dict_in, get_content_keys.
    rewrite (content_keys_fold _ [] element_id).
    rewrite <- filter_rev', find_filter. fold (row_of volume_id element_id).
    destruct (find (row_of volume_id element_id) (rev (content_keys db)))
      as [row |] eqn:Hfind.
    + symmetry. apply existsb_exists. apply find_some in Hfind as [Hin Hrow].
      exists row. split; [now apply in_rev | exact Hrow].
    + cbn. symmetry. apply not_true_is_false. intros Hex.
      apply existsb_exists in Hex as (row & Hin & Hrow).
      apply in_rev in Hin.
      rewrite (find_none _ _ Hfind row Hin) in Hrow. discriminate.
Qed.

Lemma dict_set_head (V : Type) (k0 k : string) (v0 v : V) (d : dict V) :
  exists v' d', dict_set ((k0, v0) :: d) k v = (k0, v') :: d'.
Proof.
  cbn [dict_set]. destruct (String.eqb k k0); now do 2 eexists.
Qed.

Lemma content_keys_fold_head (rows : list (string * (string * string)))
      (k0 v0 : string) (d : dict string) :
  exists v' d',
    fold_left (fun d row => dict_set d (fst (snd row)) (snd (snd row))) rows
      ((k0, v0) :: d)
    = (k0, v') :: d'.
Proof.
  revert v0 d. induction rows as [| row rows IH]; intros v0 d.
  - now do 2 eexists.
  - cbn [fold_left].
    destruct (dict_set_head k0 (fst (snd row)) v0 (snd (snd row)) d)
      as (v' & d' & ->).
    apply IH.
Qed.

(** X8.  The first key of the dictionary, the element that [main] takes
    for its test, is the element of the first row of the volume; there is
    none exactly when the volume has no row. *)
Theorem get_content_keys_first_element (db : KoboReader) (volume_id : string) :
  next_iter (dict_keys (get_content_keys db volume_id))
  = match filter (of_volume volume_id) (content_keys db) with
    | [] => Raise StopIteration
    | row :: _ => Ok (fst (snd row))
    end.
Proof.
  unfold get_content_keys.
  change (fun row : string * (string * string) => String.eqb (fst row) volume_id)
    with (of_volume volume_id).
  destruct (filter (of_volume volume_id) (content_keys db)) as [| row rows];
    [reflexivity |].
  cbn [fold_left dict_set].
  destruct (content_keys_fold_head rows (fst (snd row)) (snd (snd row)) [])
    as (v' & d' & ->).
  reflexivity.
Qed.

(** A database with two volumes and a repeated row: the dictionary of the
    book keeps the order of the first rows and the key of the last one. *)
Example get_content_keys_two_volumes :
  get_content_keys two_volume_db book_volume_id = book_keys
  /\ get_content_keys two_volume_db "another-volume"
     = [("OEBPS/chapter1.html", "AAAAAAAAAAAAAAAAAAAAAA==")]
  /\ get_content_keys two_volume_db "no-such-volume" = [].
Proof. repeat split. Qed.

(* ------------------------------------------------------------------ *)
(** * What the two decryptions raise and return *)

Lemma a2b_loop_raises (data : list N) (quad_pos : nat) (leftchar : N)
      (pads : nat) (out : list N) (e : exn) :
  Base64.a2b_loop data quad_pos leftchar pads out = Raise e -> e = BinasciiError.
Proof.
  revert quad_pos leftchar pads out.
  induction data as [| c data IH]; intros q l p out; cbn [Base64.a2b_loop].
  - destruct (q =? 0); [discriminate | now intros [= <-]].
  - destruct (c =? Base64.PAD)%N.
    + destruct (2 <=? q); [| apply IH].
      destruct (4 <=? q + S p); [discriminate | apply IH].
    + destruct (Base64.table_a2b c); [| apply IH].
      destruct q as [| [| [| q]]]; apply IH.
Qed.

Lemma b64decode_raises (s : string) (e : exn) :
  Base64.b64decode s = Raise e -> e = ValueError \/ e = BinasciiError.
Proof.
  unfold Base64.b64decode, Base64.a2b_base64.
  destruct (encode_ascii s) as [data | e0]; [| intros [= <-]; now left].
  destruct (Base64.a2b_loop _ _ _ _ _) as [out | e1] eqn:Hloop; cbn [bind];
    [discriminate |].
  intros [= <-]. right. exact (a2b_loop_raises _ _ _ _ _ Hloop).
Qed.

(** X9.  When [decrypt_content_key] returns, the text decoded as base64,
    the master key has a length that the cipher accepts, and the content
    key has the length of the decoded bytes, a whole number of blocks.
    When it raises, it is [ValueError] or [binascii.Error]. *)
Theorem decrypt_content_key_cases (encrypted_key_b64 : string)
        (master_key : bytes) :
  match decrypt_content_key encrypted_key_b64 master_key with
  | Ok content_key =>
      exists encrypted_key,
        Base64.b64decode encrypted_key_b64 = Ok encrypted_key
        /\ valid_key_length master_key = true
        /\ List.length content_key = List.length encrypted_key
        /\ List.length encrypted_key mod 16 = 0
  | Raise e => e = ValueError \/ e = BinasciiError
  end.
Proof.
  unfold decrypt_content_key.
  destruct (Base64.b64decode encrypted_key_b64) as [enc | e] eqn:Hb64;
    cbn [bind]; [| exact (b64decode_raises _ Hb64)].
  destruct (AES.new master_key) as [c | e] eqn:Hnew; cbn [bind].
  - destruct (AES.decrypt c enc) as [key | e] eqn:Hdec.
    + exists enc. split; [reflexivity |].
      pose proof (length_AES_decrypt _ _ Hnew Hdec) as Hlen.
      unfold AES.new in Hnew. unfold valid_key_length.
      destruct (_ || _); [| discriminate Hnew].
      unfold AES.decrypt in Hdec.
      destruct (Nat.eqb_spec (List.length enc mod 16) 0); [| discriminate Hdec].
      repeat split; assumption.
    + unfold AES.decrypt in Hdec.
      destruct (_ =? 0); [discriminate Hdec |].
      injection Hdec as <-. now left.
  - unfold AES.new in Hnew.
    destruct (_ || _); [discriminate Hnew |].
    injection Hnew as <-. now left.
Qed.

(** X10.  [decrypt_file_content] raises [ValueError] when the content key
    has a length that the cipher refuses or when the payload is not a whole
    number of blocks, [IndexError] when the payload is empty, and in no
    other case: a key of the right length never makes it raise, whatever
    its value.  What it returns is strictly shorter than the payload. *)
Theorem decrypt_file_content_cases (encrypted_content content_key : bytes) :
  match decrypt_file_content encrypted_content content_key with
  | Ok plain =>
      valid_key_length content_key = true
      /\ List.length encrypted_content mod 16 = 0
      /\ List.length plain < List.length encrypted_content
  | Raise e =>
      valid_key_length content_key = false /\ e = ValueError
      \/ valid_key_length content_key = true
         /\ List.length encrypted_content mod 16 <> 0 /\ e = ValueError
      \/ valid_key_length content_key = true
         /\ encrypted_content = [] /\ e = IndexError
  end.
Proof.
  unfold decrypt_file_content.
  destruct (AES.new content_key) as [c | e] eqn:Hnew; cbn [bind].
  - assert (Hvalid : valid_key_length content_key = true).
    { unfold AES.new in Hnew. unfold valid_key_length.
      now destruct (_ || _). }
    destruct (AES.decrypt c encrypted_content) as [data | e] eqn:Hdec; cbn [bind].
    + pose proof (length_AES_decrypt _ _ Hnew Hdec) as Hlen.
      assert (Hmod : List.length encrypted_content mod 16 = 0).
      { unfold AES.decrypt in Hdec.
        now destruct (Nat.eqb_spec (List.length encrypted_content mod 16) 0). }
      pose proof (pkcs7_unpad_strict_prefix_aux data) as Hunpad.
      destruct (pkcs7_unpad data) as [plain | e].
      * destruct Hunpad as (removed & -> & Hne).
        repeat split; try assumption.
        rewrite <- Hlen, length_app. destruct removed; [contradiction | cbn; lia].
      * destruct Hunpad as [-> ->]. right. right.
        destruct encrypted_content; [now repeat split | discriminate Hlen].
    + unfold AES.decrypt in Hdec.
      destruct (Nat.eqb_spec (List.length encrypted_content mod 16) 0);
        [discriminate Hdec |].
      injection Hdec as <-. right. left. now repeat split.
  - unfold AES.new in Hnew. unfold valid_key_length.
    destruct (_ || _); [discriminate Hnew |].
    injection Hnew as <-. left. now split.
Qed.

(* ------------------------------------------------------------------ *)
(** * More on [decrypt_book] *)

Lemma decrypt_book_returns_iff_aux (input_epub : ZipFile) (user_key : bytes)
      (content_keys_map : dict string) :
  (exists b, decrypt_book input_epub user_key content_keys_map = Ok b)
  <-> forall element_id encrypted_key_b64,
        In (element_id, encrypted_key_b64) content_keys_map ->
        exists key, decrypt_content_key encrypted_key_b64 user_key = Ok key.
Proof.
  pose proof (decrypt_book_ok input_epub user_key content_keys_map) as Hok.
  split.
  - intros [b Hb] element_id b64 Hin. rewrite Hb in Hok. symmetry in Hok.
    rewrite forallb_forall in Hok. specialize (Hok _ Hin). cbn [snd] in Hok.
    destruct (decrypt_content_key b64 user_key) as [key |];
      [now exists key | discriminate].
  - intros Hall.
    assert (Hfor : forallb
                     (fun kv => is_ok (decrypt_content_key (snd kv) user_key))
                     content_keys_map = true).
    { apply forallb_forall. intros [element_id b64] Hin. cbn [snd].
      now destruct (Hall _ _ Hin) as [key ->]. }
    rewrite Hfor in Hok.
    destruct (decrypt_book input_epub user_key content_keys_map) as [b |];
      [now exists b | discriminate].
Qed.

(** X11.  [decrypt_book] returns exactly when every key of the table
    decodes and decrypts under the user key; what the members of the
    archive hold plays no part in it. *)
Theorem decrypt_book_returns_iff (input_epub : ZipFile) (user_key : bytes)
        (content_keys_map : dict string) :
  (exists b, decrypt_book input_epub user_key content_keys_map = Ok b)
  <-> forall element_id encrypted_key_b64,
        In (element_id, encrypted_key_b64) content_keys_map ->
        exists key, decrypt_content_key encrypted_key_b64 user_key = Ok key.
Proof. exact (decrypt_book_returns_iff_aux input_epub user_key content_keys_map). Qed.

Lemma decrypt_keys_first_bad_key (items : list (string * string))
      (user_key : bytes) (acc : dict bytes) (e : exn) :
  decrypt_keys items user_key acc = Raise e ->
  exists before element_id encrypted_key_b64 after,
    items = before ++ (element_id, encrypted_key_b64) :: after
    /\ forallb (fun kv => is_ok (decrypt_content_key (snd kv) user_key)) before
       = true
    /\ decrypt_content_key encrypted_key_b64 user_key = Raise e.
Proof.
  revert acc. induction items as [| [k b64] items IH]; intros acc;
    cbn [decrypt_keys]; [discriminate |].
  destruct (decrypt_content_key b64 user_key) as [key | e0] eqn:Hkey; cbn [bind].
  - intros H. destruct (IH _ H) as (before & k' & b64' & after & -> & Hgood & Hbad).
    exists ((k, b64) :: before), k', b64', after.
    split; [reflexivity |]. split; [| exact Hbad].
    cbn [forallb snd]. now rewrite Hkey, Hgood.
  - intros [= <-]. exists [], k, b64, items. now repeat split.
Qed.

(** X12.  When [decrypt_book] raises, the exception is the one that the
    first key of the table that fails to decode or decrypt raises, in the
    order of the table. *)
Theorem decrypt_book_raises_first_bad_key (input_epub : ZipFile)
        (user_key : bytes) (content_keys_map : dict string) (e : exn) :
  decrypt_book input_epub user_key content_keys_map = Raise e ->
  exists before element_id encrypted_key_b64 after,
    content_keys_map = before ++ (element_id, encrypted_key_b64) :: after
    /\ forallb (fun kv => is_ok (decrypt_content_key (snd kv) user_key)) before
       = true
    /\ decrypt_content_key encrypted_key_b64 user_key = Raise e.
Proof.
  unfold decrypt_book.
  destruct (decrypt_keys content_keys_map user_key []) as [dk | e0] eqn:Hkeys;
    cbn [bind].
  - destruct (decrypt_members_spec input_epub dk (infolist input_epub)
                {| zip_out := []; files_decrypted := 0; files_copied := 0 |}
                (infolist_listed input_epub)) as (b & -> & _).
    discriminate.
  - intros [= <-]. exact (decrypt_keys_first_bad_key _ _ _ Hkeys).
Qed.

Lemma decrypt_book_raises_first_bad_key_witness :
  exists before element_id encrypted_key_b64 after,
    book_keys_truncated = before ++ (element_id, encrypted_key_b64) :: after
    /\ forallb (fun kv => is_ok (decrypt_content_key (snd kv) book_master_key))
         before
       = true
    /\ decrypt_content_key encrypted_key_b64 book_master_key
       = Raise BinasciiError.
Proof.
  apply (@decrypt_book_raises_first_bad_key book_epub book_master_key
           book_keys_truncated BinasciiError).
  vm_compute. reflexivity.
Defined.

Lemma written_members_no_key (z : ZipFile) (members : list (ZipInfo * bytes)) :
  (forall m, In m members -> zip_read z (filename (fst m)) = Ok (snd m)) ->
  written_members z [] (map fst members)
  = map (fun m => (open_to_write (fst m), snd m)) members.
Proof.
  unfold written_members. intros Hread.
  induction members as [| [info data] members IH]; [reflexivity |].
  cbn [map fst snd]. rewrite IH by (intros m Hm; apply Hread; now right).
  f_equal. f_equal. unfold written.
  pose proof (Hread (info, data) (or_introl eq_refl)) as Hthis.
  cbn [fst snd] in Hthis. now rewrite Hthis.
Qed.

Lemma filter_none (A : Type) (l : list A) : filter (fun _ => false) l = [].
Proof. induction l as [| x l IH]; [reflexivity | exact IH]. Qed.

Lemma filter_all (A : Type) (l : list A) : filter (fun _ => true) l = l.
Proof. induction l as [| x l IH]; [reflexivity | cbn; now rewrite IH]. Qed.

(** X13.  With an empty table, and distinct names in the archive,
    [decrypt_book] returns, writes every member under its name with its
    payload, in the order of the archive, and counts every member as
    copied. *)
Theorem decrypt_book_empty_table (input_epub : ZipFile) (user_key : bytes) :
  distinct (namelist input_epub) = true ->
  exists b,
    decrypt_book input_epub user_key [] = Ok b
    /\ map (fun m => (filename (fst m), snd m)) (zip_out b)
       = map (fun m => (filename (fst m), snd m)) input_epub
    /\ files_decrypted b = 0
    /\ files_copied b = List.length input_epub.
Proof.
  intros Hnames.
  destruct (proj2 (decrypt_book_returns_iff_aux input_epub user_key []))
    as [b Hb]; [intros ? ? [] |].
  exists b. split; [exact Hb |].
  destruct (decrypt_book_spec _ _ _ Hb) as (dk & Hdk & Hout & Hdec & Hcop).
  cbn in Hdk. injection Hdk as <-.
  rewrite Hout, Hdec, Hcop. repeat split.
  - unfold infolist. rewrite written_members_no_key.
    + rewrite map_map. reflexivity.
    + intros [info data] Hin. now apply zip_read_distinct.
  - unfold count_members.
    rewrite (@filter_ext _ _ (fun _ => false)); [| reflexivity].
    now rewrite filter_none.
  - unfold count_members.
    rewrite (@filter_ext _ _ (fun _ => true)); [| reflexivity].
    rewrite filter_all. unfold infolist. apply length_map.
Qed.

Lemma decrypt_book_empty_table_witness :
  exists b,
    decrypt_book book_epub_bare book_master_key [] = Ok b
    /\ map (fun m => (filename (fst m), snd m)) (zip_out b)
       = map (fun m => (filename (fst m), snd m)) book_epub_bare
    /\ files_decrypted b = 0
    /\ files_copied b = List.length book_epub_bare.
Proof.
  apply (@decrypt_book_empty_table book_epub_bare book_master_key). reflexivity.
Defined.

(** Where a decrypted key comes from: a key of the table decrypted, or the
    dictionary that the loop started from. *)
Lemma decrypt_keys_origin (items : list (string * string)) (user_key : bytes)
      (acc dk : dict bytes) (name : string) (key : bytes) :
  decrypt_keys items user_key acc = Ok dk ->
  dict_get dk name = Some key ->
  dict_get acc name = Some key
  \/ exists encrypted_key_b64,
       In (name, encrypted_key_b64) items
       /\ decrypt_content_key encrypted_key_b64 user_key = Ok key.
Proof.
  revert acc. induction items as [| [k b64] items IH]; intros acc;
    cbn [decrypt_keys].
  - intros [= <-] H. now left.
  - destruct (decrypt_content_key b64 user_key) as [key0 |] eqn:Hkey;
      cbn [bind]; [| discriminate].
    intros Hrun Hget. destruct (IH _ Hrun Hget) as [Hacc | (b64' & Hin & Hdec)].
    + rewrite dict_get_set in Hacc.
      destruct (String.eqb_spec name k) as [-> | _]; [| now left].
      injection Hacc as <-. right. exists b64. split; [now left | exact Hkey].
    + right. exists b64'. split; [now right | exact Hdec].
Qed.

(** X14.  When [decrypt_book] returns, every member it wrote holds either
    the payload of the source, when the member is not matched or when its
    decryption raised, or the payload of the source decrypted under a
    decrypted key of the table for its normalized name. *)
Theorem decrypt_book_writes_payload_or_plaintext (input_epub : ZipFile)
        (user_key : bytes) (content_keys_map : dict string) (b : book) :
  decrypt_book input_epub user_key content_keys_map = Ok b ->
  Forall
    (fun dst =>
       exists payload,
         zip_read input_epub (filename (fst dst)) = Ok payload
         /\ (matched content_keys_map (fst dst) = false /\ snd dst = payload
             \/ exists encrypted_key_b64 content_key,
                  In (normalized (fst dst), encrypted_key_b64) content_keys_map
                  /\ decrypt_content_key encrypted_key_b64 user_key
                     = Ok content_key
                  /\ match decrypt_file_content payload content_key with
                     | Ok plain => snd dst = plain
                     | Raise _ => snd dst = payload
                     end))
    (zip_out b).
Proof.
  intros Hbook.
  destruct (decrypt_book_spec _ _ _ Hbook) as (dk & Hdk & -> & _).
  unfold written_members. rewrite Forall_map. apply Forall_forall.
  intros info Hin. cbn [fst snd].
  change (filename (open_to_write info)) with (filename info).
  change (matched content_keys_map (open_to_write info))
    with (matched content_keys_map info).
  change (normalized (open_to_write info)) with (normalized info).
  destruct (zip_read_listed input_epub _ (infolist_listed _ _ Hin))
    as [payload Hread].
  exists payload. split; [exact Hread |].
  unfold written. rewrite Hread.
  destruct (dict_get dk (normalized info)) as [key |] eqn:Hget.
  - right.
    destruct (decrypt_keys_origin _ _ _ _ Hdk Hget) as [Hnil | (b64 & Hb64 & Hdec)];
      [discriminate Hnil |].
    exists b64, key. repeat split; try assumption.
    now destruct (decrypt_file_content payload key).
  - left. split; [| reflexivity].
    rewrite <- (matched_decrypted_keys _ _ info Hdk).
    unfold dict_in. now rewrite Hget.
Qed.

Lemma decrypt_book_writes_payload_or_plaintext_witness :
  Forall
    (fun dst =>
       exists payload,
         zip_read book_epub_damaged (filename (fst dst)) = Ok payload
         /\ (matched book_keys (fst dst) = false /\ snd dst = payload
             \/ exists encrypted_key_b64 content_key,
                  In (normalized (fst dst), encrypted_key_b64) book_keys
                  /\ decrypt_content_key encrypted_key_b64 book_master_key
                     = Ok content_key
                  /\ match decrypt_file_content payload content_key with
                     | Ok plain => snd dst = plain
                     | Raise _ => snd dst = payload
                     end))
    [member "mimetype" (list_byte_of_string "application/epub+zip");
     member "OEBPS/chapter1.html"
       (list_byte_of_string "<html><body>One</body></html>");
     member "OEBPS/chapter2.html" (removelast chapter2_encrypted)].
Proof.
  apply (@decrypt_book_writes_payload_or_plaintext book_epub_damaged
           book_master_key book_keys
           {| zip_out :=
                [member "mimetype" (list_byte_of_string "application/epub+zip");
                 member "OEBPS/chapter1.html"
                   (list_byte_of_string "<html><body>One</body></html>");
                 member "OEBPS/chapter2.html" (removelast chapter2_encrypted)];
              files_decrypted := 1; files_copied := 1 |}).
  vm_compute. reflexivity.
Defined.

Lemma str_replace_removes (old new : ascii) (s : string) :
  old <> new -> ~ In old (chars (str_replace old new s)).
Proof.
  intros Hne. unfold chars.
  induction s as [| c s IH]; cbn; [tauto |].
  intros [Heq | Hin]; [| now apply IH].
  destruct (Ascii.eqb_spec c old) as [-> | Hc]; [now apply Hne | now apply Hc].
Qed.

(** X15.  The name under which a member is looked up holds no backslash: a
    key of the table with a backslash in it is the lookup name of no member,
    so its content key is never used. *)
Theorem backslash_key_matches_no_member (element_id encrypted_key_b64 : string)
        (info : ZipInfo) :
  In "\"%char (chars element_id) ->
  normalized info <> element_id
  /\ matched [(element_id, encrypted_key_b64)] info = false.
Proof.
  intros Hback.
  assert (Hne : normalized info <> element_id).
  { intros <-. revert Hback. apply str_replace_removes. discriminate. }
  split; [exact Hne |].
  unfold matched, dict_in. cbn [dict_get].
  destruct (String.eqb_spec (normalized info) element_id); [contradiction |].
  reflexivity.
Qed.

Lemma backslash_key_matches_no_member_witness :
  normalized (fst (member "OEBPS\chapter1.html" chapter1_encrypted))
  <> "OEBPS\chapter1.html"%string
  /\ matched [("OEBPS\chapter1.html"%string, "lyXc2GeLNWc+3bn/sqOLOw=="%string)]
       (fst (member "OEBPS\chapter1.html" chapter1_encrypted))
     = false.
Proof.
  apply backslash_key_matches_no_member. cbn. tauto.
Defined.

(* ------------------------------------------------------------------ *)
(** * More on [main] *)

Lemma try_hash_keys_gives_up_witness :
  try_hash_keys KOBO_HASH_KEYS book_serial book_user_id book_keys_truncated
    book_epub
  = NoKnownHashKey
  <-> forall hash_key user_key,
        In hash_key KOBO_HASH_KEYS ->
        derive_user_key book_serial book_user_id hash_key = Ok user_key ->
        accepted book_epub book_keys_truncated user_key
        && is_ok (decrypt_book book_epub user_key book_keys_truncated) = false.
Proof.
  apply (@try_hash_keys_gives_up KOBO_HASH_KEYS book_serial book_user_id
           book_keys_truncated book_epub);
    [discriminate | reflexivity | reflexivity | reflexivity].
Defined.

Lemma get_content_keys_empty (db : KoboReader) (volume_id : string) :
  get_content_keys db volume_id = []
  <-> filter (of_volume volume_id) (content_keys db) = [].
Proof.
  unfold get_content_keys.
  change (fun row : string * (string * string) => String.eqb (fst row) volume_id)
    with (of_volume volume_id).
  destruct (filter (of_volume volume_id) (content_keys db)) as [| row rows];
    [tauto |].
  cbn [fold_left dict_set].
  destruct (content_keys_fold_head rows (fst (snd row)) (snd (snd row)) [])
    as (v' & d' & ->).
  split; discriminate.
Qed.

(** With a table that is not empty, the loop ends in success, gives up, or
    fails on the encoding of its inputs: nothing else reaches the outer
    handlers. *)
Lemma try_hash_keys_outcomes (hash_keys : list string) (serial user_id : string)
      (kv : string * string) (content_keys : dict string) (input_epub : ZipFile) :
  match try_hash_keys hash_keys serial user_id (kv :: content_keys) input_epub with
  | Success _ _ _ | NoKnownHashKey => True
  | NoContentKeys => False
  | Failed e => e = UnicodeEncodeError
  end.
Proof.
  destruct kv as [first_element first_key_b64].
  induction hash_keys as [| hk hash_keys IH]; [exact I |].
  cbn [try_hash_keys].
  pose proof (derive_user_key_cases serial user_id hk) as Hcases.
  destruct (derive_user_key serial user_id hk) as [uk | e].
  - cbn [dict_keys map fst next_iter dict_get]. rewrite String.eqb_refl.
    destruct (try_hash_key _ _ _ _ _) as [[b |] | e]; [exact I | exact IH ..].
  - destruct (_ && _); [discriminate Hcases | now injection Hcases].
Qed.

(** X16.  When [main] ends in success, the hash key is one of the four
    known ones, the user key is derived from it with the serial of the
    descriptor and the user of the database, the candidate passed the test,
    and the summary is the one [decrypt_book] returned with that key and the
    content keys of the volume. *)
Theorem main_success_sound (version_file : option string) (db : KoboReader)
        (volume_id : string) (input_epub : ZipFile)
        (hash_key : string) (user_key : bytes) (b : book) :
  main version_file db volume_id input_epub = Success hash_key user_key b ->
  In hash_key KOBO_HASH_KEYS
  /\ exists serial user_id,
       get_device_serial version_file = Ok serial
       /\ get_user_id db = Ok user_id
       /\ derive_user_key serial user_id hash_key = Ok user_key
       /\ accepted input_epub (get_content_keys db volume_id) user_key = true
       /\ decrypt_book input_epub user_key (get_content_keys db volume_id) = Ok b.
Proof.
  unfold main.
  destruct (get_device_serial version_file) as [serial | e]; [| discriminate].
  destruct (get_user_id db) as [user_id | e]; [| discriminate].
  destruct (get_content_keys db volume_id) as [| kv content_keys] eqn:Hkeys;
    [discriminate |].
  intros Hrun.
  destruct (try_hash_keys_success _ _ _ _ _ Hrun)
    as (before & after & Hlist & Hderive & Haccepted & Hbook & _).
  split.
  - rewrite Hlist. apply in_or_app. right. now left.
  - exists serial, user_id. now repeat split.
Qed.

Lemma main_success_sound_witness :
  In "NoCanLook"%string KOBO_HASH_KEYS
  /\ exists serial user_id,
       get_device_serial (Some book_version_file) = Ok serial
       /\ get_user_id (book_db book_keys) = Ok user_id
       /\ derive_user_key serial user_id "NoCanLook" = Ok book_master_key
       /\ accepted book_epub (get_content_keys (book_db book_keys) book_volume_id)
            book_master_key
          = true
       /\ decrypt_book book_epub book_master_key
            (get_content_keys (book_db book_keys) book_volume_id)
          = Ok {| zip_out := book_plain; files_decrypted := 2; files_copied := 1 |}.
Proof.
  apply (@main_success_sound (Some book_version_file) (book_db book_keys)
           book_volume_id book_epub "NoCanLook" book_master_key
           {| zip_out := book_plain; files_decrypted := 2; files_copied := 1 |}).
  vm_compute. reflexivity.
Defined.

(** X18.  A serial or a user with a character outside ASCII is not taken
    for a failed candidate: the key derivation is outside the [try] block,
    and [main] ends in the outer handler with [UnicodeEncodeError] at the
    first hash key, whatever the archive and the content keys hold. *)
Theorem main_non_ascii_input (version_file : option string) (db : KoboReader)
        (volume_id : string) (input_epub : ZipFile) (serial user_id : string) :
  get_device_serial version_file = Ok serial ->
  get_user_id db = Ok user_id ->
  is_ascii serial && is_ascii user_id = false ->
  get_content_keys db volume_id <> [] ->
  main version_file db volume_id input_epub = Failed UnicodeEncodeError.
Proof.
  intros Hserial Huser Hascii Hkeys. unfold main.
  rewrite Hserial, Huser.
  destruct (get_content_keys db volume_id) as [| kv content_keys];
    [contradiction |].
  unfold KOBO_HASH_KEYS. cbn [try_hash_keys].
  rewrite derive_user_key_cases, <- andb_assoc, Hascii, andb_false_r.
  reflexivity.
Qed.

Lemma main_non_ascii_input_witness :
  main (Some (String "233"%char "N905B12345,4.38.21908")) (book_db book_keys)
    book_volume_id book_epub
  = Failed UnicodeEncodeError.
Proof.
  apply (@main_non_ascii_input _ _ _ _ (String "233"%char "N905B12345") book_user_id);
    [reflexivity | reflexivity | reflexivity | discriminate].
Defined.

(** X19.  The first file is read under the first key of the table as it
    is, not under a normalized name: when no member of the archive bears
    that name, no candidate is accepted and the loop never ends in
    success. *)
Theorem try_hash_keys_first_element_missing (hash_keys : list string)
        (serial user_id first_element first_key_b64 : string)
        (content_keys : dict string) (input_epub : ZipFile) :
  existsb (String.eqb first_element) (namelist input_epub) = false ->
  forall (hash_key : string) (user_key : bytes) (b : book),
    try_hash_keys hash_keys serial user_id
      ((first_element, first_key_b64) :: content_keys) input_epub
    <> Success hash_key user_key b.
Proof.
  intros Hmissing hk uk b Hrun.
  destruct (try_hash_keys_success _ _ _ _ _ Hrun)
    as (_ & _ & _ & _ & Haccepted & _).
  cbn [accepted] in Haccepted. unfold decrypt_first, zip_read in Haccepted.
  rewrite (NameToInfo_absent _ _ Hmissing) in Haccepted.
  destruct (decrypt_content_key first_key_b64 uk); discriminate Haccepted.
Qed.

Lemma try_hash_keys_first_element_missing_witness :
  try_hash_keys KOBO_HASH_KEYS book_serial book_user_id
    (("OEBPS/chapter1.html"%string, "lyXc2GeLNWc+3bn/sqOLOw=="%string)
     :: [("OEBPS/chapter2.html"%string, "5wIyaQcAo4gO3o26UEQ1pg=="%string)])
    book_epub_backslash
  <> Success "NoCanLook" book_master_key
       {| zip_out := book_plain; files_decrypted := 2; files_copied := 1 |}.
Proof.
  apply (@try_hash_keys_first_element_missing KOBO_HASH_KEYS book_serial
           book_user_id "OEBPS/chapter1.html" "lyXc2GeLNWc+3bn/sqOLOw=="
           [("OEBPS/chapter2.html"%string, "5wIyaQcAo4gO3o26UEQ1pg=="%string)]
           book_epub_backslash).
  reflexivity.
Defined.

(** The same archive given to [decrypt_book] with the right key: there the
    name is normalized, and the chapter stored under a backslash is
    decrypted. *)
Example decrypt_book_backslash_name :
  decrypt_book book_epub_backslash book_master_key book_keys
  = Ok {| zip_out :=
            [member "mimetype" (list_byte_of_string "application/epub+zip");
             member "OEBPS\chapter1.html"
               (list_byte_of_string "<html><body>One</body></html>");
             member "OEBPS/chapter2.html"
               (list_byte_of_string "<html><body>Two</body></html>")];
          files_decrypted := 2; files_copied := 1 |}.
Proof. vm_compute. reflexivity. Qed.

(** X20.  The three failures of [main] on its inputs, in the order in which
    it reads them: the descriptor is missing; the descriptor is there and
    the database has no user; both are there and the volume has no content
    key. *)
Theorem main_input_failures (version_file : option string) (db : KoboReader)
        (volume_id : string) (input_epub : ZipFile) :
  (main version_file db volume_id input_epub = Failed FileNotFoundError
   <-> version_file = None)
  /\ (main version_file db volume_id input_epub = Failed ValueError
      <-> version_file <> None /\ user db = [])
  /\ (main version_file db volume_id input_epub = NoContentKeys
      <-> version_file <> None /\ user db <> []
          /\ filter (of_volume volume_id) (content_keys db) = []).
Proof.
  unfold main.
  destruct version_file as [text |];
    [| cbn [get_device_serial]; intuition congruence].
  rewrite get_device_serial_first_field.
  unfold get_user_id. destruct (user db) as [| user_id users];
    [intuition congruence |].
  pose proof (get_content_keys_empty db volume_id) as Hempty.
  destruct (get_content_keys db volume_id) as [| kv rest_keys].
  - assert (Hnone : filter (of_volume volume_id) (content_keys db) = [])
      by now apply Hempty.
    intuition congruence.
  - assert (Hsome : filter (of_volume volume_id) (content_keys db) <> []).
    { intros H. apply Hempty in H. discriminate H. }
    pose proof (try_hash_keys_outcomes KOBO_HASH_KEYS
                  (hd EmptyString (str_split "," (str_strip text))) user_id
                  kv rest_keys input_epub) as Hout.
    destruct (try_hash_keys _ _ _ _ _) as [hk uk b | | | e];
      try contradiction; subst; intuition congruence.
Qed.
